(** * The compliance-news sensing pipeline of [news_sensing_system.py]

    A shallow embedding of the ingestion, dedup and filter pipeline, of the
    identifier store, of the digest assembler and of the run orchestrator,
    followed by the properties the design document states about them.

    Python strings are sequences of Unicode code points, and are modelled as
    lists of code points.  The set of processed identifiers is a finite set of
    such strings.  The collaborators (feed parser, page scraper, translator,
    process environment, clock, mail transport) are the fields of a record
    [World]; the backing file and the observable effects of a run are an
    explicit state threaded through a small exception-and-state monad. *)

From Stdlib Require Import NArith ZArith Lia String Ascii Sorted Permutation.
From stdpp Require Import base list gmap sets sorting.

(* ===================================================================== *)
(** * Python strings *)
(* ===================================================================== *)

(** A [str] is a list of code points. *)
Abbreviation pystr := (list N).

(** String literals of the source are written as Rocq strings, which hold the
    UTF-8 bytes of the literal; [u] decodes them into code points. *)
Fixpoint utf8_decode (acc : N) (need : nat) (bs : list N) : pystr :=
  match bs with
  | [] => []
  | b :: bs' =>
      match need with
      | S n' =>
          let acc' := (acc * 64 + b mod 64)%N in
          match n' with
          | O => acc' :: utf8_decode 0%N O bs'
          | S _ => utf8_decode acc' n' bs'
          end
      | O =>
          if (b <? 128)%N then b :: utf8_decode 0%N O bs'
          else if (b <? 224)%N then utf8_decode (b mod 32)%N 1 bs'
          else if (b <? 240)%N then utf8_decode (b mod 16)%N 2 bs'
          else utf8_decode (b mod 8)%N 3 bs'
      end
  end.

Definition u (s : string) : pystr :=
  utf8_decode 0%N O (List.map N_of_ascii (list_ascii_of_string s)).

Arguments u : simpl never.

(** [str.isspace] on one code point: the code points Python's [strip()]
    removes. *)
Definition isspace (c : N) : bool :=
  ((9 <=? c) && (c <=? 13) || (28 <=? c) && (c <=? 32)
   || (c =? 133) || (c =? 160) || (c =? 5760)
   || (8192 <=? c) && (c <=? 8202)
   || (c =? 8232) || (c =? 8233) || (c =? 8239) || (c =? 8287)
   || (c =? 12288))%N.

Fixpoint lstrip (s : pystr) : pystr :=
  match s with
  | [] => []
  | c :: s' => if isspace c then lstrip s' else s
  end.

Fixpoint rstrip (s : pystr) : pystr :=
  match s with
  | [] => []
  | c :: s' =>
      match rstrip s' with
      | [] => if isspace c then [] else [c]
      | t => c :: t
      end
  end.

(** [s.strip()] *)
Definition strip (s : pystr) : pystr := rstrip (lstrip s).

(** [s.startswith(p)] *)
Fixpoint startswith (s p : pystr) : bool :=
  match p, s with
  | [], _ => true
  | _ :: _, [] => false
  | a :: p', b :: s' => (a =? b)%N && startswith s' p'
  end.

(** [needle in hay] on strings: substring containment. *)
Fixpoint contains (needle hay : pystr) : bool :=
  startswith hay needle
  || match hay with
     | [] => false
     | _ :: hay' => contains needle hay'
     end.

(** [a < b] on strings: lexicographic on code points. *)
Fixpoint str_ltb (a b : pystr) : bool :=
  match a, b with
  | _, [] => false
  | [], _ :: _ => true
  | x :: a', y :: b' => (x <? y)%N || (x =? y)%N && str_ltb a' b'
  end.

Definition str_leb (a b : pystr) : bool := negb (str_ltb b a).

(** [sep.join(parts)] *)
Fixpoint join (sep : pystr) (parts : list pystr) : pystr :=
  match parts with
  | [] => []
  | [p] => p
  | p :: ps => p ++ sep ++ join sep ps
  end.

(** [s.split(c)] for a one-character separator; never the empty list. *)
Fixpoint split_on (c : N) (s : pystr) : list pystr :=
  match s with
  | [] => [[]]
  | x :: s' =>
      if (x =? c)%N then [] :: split_on c s'
      else match split_on c s' with
           | h :: t => (x :: h) :: t
           | [] => [[x]]
           end
  end.

(** [str(n)] for a non-negative integer. *)
Fixpoint uint_digits (d : Decimal.uint) : pystr :=
  match d with
  | Decimal.Nil => []
  | Decimal.D0 d => 48%N :: uint_digits d
  | Decimal.D1 d => 49%N :: uint_digits d
  | Decimal.D2 d => 50%N :: uint_digits d
  | Decimal.D3 d => 51%N :: uint_digits d
  | Decimal.D4 d => 52%N :: uint_digits d
  | Decimal.D5 d => 53%N :: uint_digits d
  | Decimal.D6 d => 54%N :: uint_digits d
  | Decimal.D7 d => 55%N :: uint_digits d
  | Decimal.D8 d => 56%N :: uint_digits d
  | Decimal.D9 d => 57%N :: uint_digits d
  end.

Definition str_of_nat (n : nat) : pystr := uint_digits (Nat.to_uint n).

(** Truthiness of a string ([if s:], [a or b]): non-empty. *)
Definition truthy (s : pystr) : bool :=
  match s with [] => false | _ :: _ => true end.

(** A stable insertion sort.  [list.sort] and [sorted] are stable, so on a
    total preorder their result is the one this function computes. *)
Section StableSort.
Context {A : Type} (le : A -> A -> bool).

Fixpoint insert_sorted (x : A) (l : list A) : list A :=
  match l with
  | [] => [x]
  | y :: l' => if le x y then x :: l else y :: insert_sorted x l'
  end.

Fixpoint stable_sort (l : list A) : list A :=
  match l with
  | [] => []
  | x :: l' => insert_sorted x (stable_sort l')
  end.
End StableSort.

(** Reading a file opened in text mode: "\r\n" and a lone "\r" are read as
    "\n" ([prev_cr] remembers a "\r" just translated). *)
Fixpoint universal_newlines (prev_cr : bool) (s : pystr) : pystr :=
  match s with
  | [] => []
  | c :: s' =>
      if (c =? 13)%N then 10%N :: universal_newlines true s'
      else if (c =? 10)%N && prev_cr then universal_newlines false s'
      else c :: universal_newlines false s'
  end.

(** [for line in f]: the lines of a text, each with its terminator; [cur] is
    the current line, reversed. *)
Fixpoint split_lines (cur : pystr) (s : pystr) : list pystr :=
  match s with
  | [] => match cur with [] => [] | _ :: _ => [rev cur] end
  | c :: s' =>
      if (c =? 10)%N then rev (c :: cur) :: split_lines [] s'
      else split_lines (c :: cur) s'
  end.

Definition text_lines (contents : pystr) : list pystr :=
  split_lines [] (universal_newlines false contents).

(* ===================================================================== *)
(** * Exceptions and the Python runtime *)
(* ===================================================================== *)

(** The exceptions (all subclasses of [Exception]) the program raises or
    catches, each with its message [str(exc)]. *)
Inductive exn :=
| RuntimeError (msg : pystr)
| ValueError (msg : pystr)
| CollaboratorError (msg : pystr).

Definition str_exn (e : exn) : pystr :=
  match e with
  | RuntimeError msg | ValueError msg | CollaboratorError msg => msg
  end.

(** Two builtins depend on Unicode tables that are not part of the program:
    [str.lower] and [int].  The pipeline is parameterised by them. *)
Record Runtime := {
  lower : pystr -> pystr;          (* s.lower() *)
  int_of_str : pystr -> exn + Z    (* int(s) *)
}.

(** The instance used for concrete runs: both builtins on ASCII input, where
    [lower] maps A-Z to a-z and leaves every other code point (Hangul among
    them) alone, and [int] reads an optionally signed run of decimal digits. *)
Definition lower_cp (c : N) : N :=
  if ((65 <=? c) && (c <=? 90))%N then (c + 32)%N else c.

Definition lower_ascii (s : pystr) : pystr := List.map lower_cp s.

Fixpoint digits_value (acc : Z) (s : pystr) : option Z :=
  match s with
  | [] => Some acc
  | c :: s' =>
      if ((48 <=? c) && (c <=? 57))%N
      then digits_value (acc * 10 + Z.of_N (c - 48))%Z s'
      else None
  end.

Definition int_ascii (s : pystr) : exn + Z :=
  let bad := inl (ValueError (u "invalid literal for int() with base 10")) in
  let digits (t : pystr) :=
    match t with
    | [] => None
    | _ :: _ => digits_value 0%Z t
    end in
  match strip s with
  | [] => bad
  | c :: t =>
      if (c =? 45)%N then
        match digits t with Some v => inr (- v)%Z | None => bad end
      else if (c =? 43)%N then
        match digits t with Some v => inr v | None => bad end
      else
        match digits (c :: t) with Some v => inr v | None => bad end
  end.

Definition ascii_runtime : Runtime :=
  {| lower := lower_ascii; int_of_str := int_ascii |}.

(* ===================================================================== *)
(** * Data model *)
(* ===================================================================== *)

(** One entry of a parsed feed: a dictionary whose keys may all be absent. *)
Record Entry := {
  e_id : option pystr;
  e_guid : option pystr;
  e_link : option pystr;
  e_title : option pystr;
  e_summary : option pystr;
  e_description : option pystr;
  e_published : option pystr
}.

(** The dictionaries the adapters emit; all seven keys are always present. *)
Record Article := {
  a_id : pystr;
  a_source : pystr;
  a_title : pystr;
  a_summary : pystr;
  a_translation : pystr;
  a_link : pystr;
  a_published : pystr
}.

(** One element of [FEEDS]. *)
Record Feed := {
  f_name : pystr;
  f_url : pystr;
  f_language : pystr
}.

(** The module-level configuration. *)
Record Config := {
  FEEDS : list Feed;
  KEYWORDS_KO : list pystr;
  KEYWORDS_EN : list pystr
}.

(** What one SMTP session is asked to do. *)
Record SmtpRequest := {
  smtp_host : pystr;
  smtp_port : Z;
  smtp_user : pystr;
  smtp_pass : pystr;
  smtp_recipients : list pystr;
  smtp_subject : pystr;
  smtp_body : pystr
}.

(** The collaborators, as seen during one run. *)
Record World := {
  (* feedparser.parse(url).entries, or the exception it raises *)
  feedparser_parse : pystr -> exn + list Entry;
  (* requests.get + soup.select("div.boardType01 li a"): for every anchor
     its get_text(strip=True) and its get("href") *)
  moleg_anchors : exn + list (pystr * option pystr);
  (* translator.translate(text, dest="ko").text *)
  translate : pystr -> exn + pystr;
  (* os.environ.get(name) *)
  environ : pystr -> option pystr;
  (* datetime.now().strftime("%Y-%m-%d %H:%M:%S") *)
  now : pystr;
  (* connect, login and sendmail of smtplib.SMTP_SSL *)
  smtp_session : SmtpRequest -> option exn
}.

(** Observable effects of a run, in the order they happen. *)
Inductive Event :=
| Printed (msg : pystr)
| FileWritten (contents : pystr)
| SmtpSend (req : SmtpRequest).

(** The mutable part: the contents of [PROCESSED_FILE] ([None] when the file
    does not exist) and the effects so far. *)
Record State := {
  file : option pystr;
  trace : list Event
}.

(** Computations that read and write the state and may raise. *)
Definition M (A : Type) : Type := State -> (exn + A) * State.

Definition ret {A} (a : A) : M A := fun st => (inr a, st).

Definition raise {A} (e : exn) : M A := fun st => (inl e, st).

Definition bind {A B} (m : M A) (k : A -> M B) : M B :=
  fun st =>
    match m st with
    | (inr a, st') => k a st'
    | (inl e, st') => (inl e, st')
    end.

#[global] Instance M_ret : MRet M := @ret.
#[global] Instance M_bind : MBind M := fun A B k m => bind m k.

Definition emit (ev : Event) : M unit :=
  fun st => (inr tt, {| file := file st; trace := trace st ++ [ev] |}).

(** [print(msg)] *)
Definition print (msg : pystr) : M unit := emit (Printed msg).

Definition read_file : M (option pystr) := fun st => (inr (file st), st).

(** [open(PROCESSED_FILE, "w")] followed by the writes: the file is replaced. *)
Definition write_file (contents : pystr) : M unit :=
  fun st =>
    (inr tt, {| file := Some contents;
                trace := trace st ++ [FileWritten contents] |}).

(** Raising the exception of a failed builtin. *)
Definition lift {A} (r : exn + A) : M A :=
  match r with
  | inl e => raise e
  | inr a => ret a
  end.

(** Truthiness of [d.get(k)], which is [None] or a string. *)
Definition opt_truthy (o : option pystr) : bool :=
  match o with
  | Some s => truthy s
  | None => false
  end.

(** [a or b] on values that are [None] or a string. *)
Definition py_or (a b : option pystr) : option pystr :=
  if opt_truthy a then a else b.

(** The world [w] with another process environment and another mail
    transport; feeds, page, translator and clock are those of [w]. *)
Definition with_delivery (w : World) (env : pystr -> option pystr)
    (smtp : SmtpRequest -> option exn) : World :=
  {| feedparser_parse := feedparser_parse w;
     moleg_anchors := moleg_anchors w;
     translate := translate w;
     environ := env;
     now := now w;
     smtp_session := smtp |}.

(* ===================================================================== *)
(** * The configuration of the source, and inputs of concrete runs *)
(* ===================================================================== *)

Definition global_compliance_news : Feed :=
  {| f_name := u "Global Compliance News";
     f_url := u "https://www.globalcompliancenews.com/feed/";
     f_language := u "en" |}.

Definition corporate_compliance_insights : Feed :=
  {| f_name := u "Corporate Compliance Insights";
     f_url := u "https://www.corporatecomplianceinsights.com/feed/";
     f_language := u "en" |}.

Definition lexology : Feed :=
  {| f_name := u "Lexology";
     f_url := u "https://www.lexology.com/rss";
     f_language := u "en" |}.

(** [FEEDS], [KEYWORDS_KO] and [KEYWORDS_EN] as the module defines them. *)
Definition source_config : Config :=
  {| FEEDS := [global_compliance_news; corporate_compliance_insights;
               lexology];
     KEYWORDS_KO :=
       [u "독점규제및공정거래에관한법률"; u "공정거래법"; u "상법";
        u "노동법"; u "노조법"; u "근로기준법"; u "노랑봉투법";
        u "중대재해재법"; u "대리점법"; u "하도급법"; u "정보보호법"];
     KEYWORDS_EN :=
       [u "FCPA"; u "GDPR"; u "U.S. visas"; u "US visas"; u "immigration";
        u "tariffs"] |}.

(** The Korean feed that the source keeps commented out in [FEEDS]. *)
Definition lawtimes : Feed :=
  {| f_name := u "법률신문 (LawTimes)";
     f_url := u "https://www.lawtimes.co.kr/rss";
     f_language := u "ko" |}.

Definition no_entry : Entry :=
  {| e_id := None; e_guid := None; e_link := None; e_title := None;
     e_summary := None; e_description := None; e_published := None |}.

(** An entry of the Korean feed. *)
Definition lawtimes_entry : Entry :=
  {| e_id := Some (u "k1"); e_guid := None;
     e_link := Some (u "https://www.lawtimes.co.kr/k1");
     e_title := Some (u "상법 개정"); e_summary := Some (u "본문");
     e_description := None; e_published := None |}.

(** An entry of an English feed. *)
Definition gdpr_entry : Entry :=
  {| e_id := Some (u "abc123"); e_guid := None; e_link := None;
     e_title := Some (u "New GDPR Enforcement Action");
     e_summary := None; e_description := None; e_published := None |}.

(** An entry whose id is present but empty. *)
Definition empty_id_entry : Entry :=
  {| e_id := Some []; e_guid := Some (u "guid-7"); e_link := Some (u "l");
     e_title := None; e_summary := None; e_description := None;
     e_published := None |}.

Definition empty_id_guid_entry : Entry :=
  {| e_id := Some []; e_guid := Some []; e_link := Some (u "l");
     e_title := None; e_summary := None; e_description := None;
     e_published := None |}.

Definition blank_entry : Entry :=
  {| e_id := Some []; e_guid := None; e_link := Some [];
     e_title := Some (u "GDPR"); e_summary := None; e_description := None;
     e_published := None |}.

(** A mail configuration in which only [EMAIL_TO] is not set. *)
Definition env_without_recipients (name : pystr) : option pystr :=
  if decide (name = u "SMTP_HOST") then Some (u "smtp.example.com")
  else if decide (name = u "SMTP_USER") then Some (u "digest@example.com")
  else if decide (name = u "SMTP_PASSWORD") then Some (u "secret")
  else None.

(** A world in which the Korean feed has one entry, the second English
    feed cannot be fetched, the others have the GDPR entry, the translator
    is down and the mail configuration lacks the recipients. *)
Definition sample_world : World :=
  {| feedparser_parse := fun url =>
       if decide (url = f_url lawtimes) then inr [lawtimes_entry]
       else if decide (url = f_url corporate_compliance_insights)
            then inl (CollaboratorError (u "connection refused"))
       else inr [gdpr_entry];
     moleg_anchors := inr [(u "GDPR update", Some (u "/a"));
                           (u "상법 시행령", Some (u "/b"))];
     translate := fun _ => inl (CollaboratorError (u "timed out"));
     environ := env_without_recipients;
     now := u "2024-05-01 09:00:00";
     smtp_session := fun _ => None |}.

Definition initial_state : State := {| file := None; trace := [] |}.

(** A mail configuration whose port is not a number. *)
Definition env_with_bad_port (name : pystr) : option pystr :=
  if decide (name = u "SMTP_PORT") then Some (u "ssl")
  else env_without_recipients name.


(** An entry whose identifier ends in a blank. *)
Definition padded_id_entry : Entry :=
  {| e_id := Some (u "abc123 "); e_guid := None; e_link := None;
     e_title := Some (u "GDPR fines"); e_summary := None;
     e_description := None; e_published := None |}.

(** The sample world with feeds that all serve that entry. *)
Definition padded_id_world : World :=
  {| feedparser_parse := fun _ => inr [padded_id_entry];
     moleg_anchors := moleg_anchors sample_world;
     translate := translate sample_world;
     environ := environ sample_world;
     now := now sample_world;
     smtp_session := smtp_session sample_world |}.

(* ===================================================================== *)
(** * The program *)
(* ===================================================================== *)

Section Pipeline.
Variable py : Runtime.
Variable cfg : Config.
Variable w : World.

(** ** Identifier store *)

Definition load_processed : M (gset pystr) :=
  contents ← read_file;
  match contents with
  | None => ret ∅
  | Some text => ret (list_to_set (strip <$> text_lines text))
  end.

Definition sorted (processed : gset pystr) : list pystr :=
  stable_sort str_leb (elements processed).

Definition save_processed (processed : gset pystr) : M unit :=
  write_file (concat ((fun item => item ++ [10%N]) <$> sorted processed)).

(** ** Keyword matcher *)

Definition article_matches (text : pystr) : bool :=
  let lower_text := lower py text in
  if existsb (fun kw => contains (lower py kw) lower_text) (KEYWORDS_KO cfg)
  then true
  else if existsb (fun kw => contains (lower py kw) lower_text)
            (KEYWORDS_EN cfg)
  then true
  else false.

(** ** Feed adapter *)

Definition entry_identifier (entry : Entry) : option pystr :=
  py_or (py_or (e_id entry) (e_guid entry)) (e_link entry).

(** [title], [summary] and [combined] of the loop body. *)
Definition entry_title (entry : Entry) : pystr :=
  default [] (e_title entry).

Definition entry_summary (entry : Entry) : pystr :=
  match e_summary entry with
  | Some s => s
  | None => default [] (e_description entry)
  end.

Definition entry_combined (entry : Entry) : pystr :=
  entry_title entry ++ [10%N] ++ entry_summary entry.

(** The translation of a matched entry: the [if]/[try] of [fetch_feed]. *)
Definition translated_text (feed : Feed) (combined : pystr) : pystr :=
  if bool_decide (f_language feed ≠ u "ko") then
    match translate w combined with
    | inr text => text
    | inl exc => u "(번역 오류: " ++ str_exn exc ++ u ")"
    end
  else combined.

(** One iteration of the loop of [fetch_feed] on [results] and the shared
    set [processed]. *)
Definition feed_entry_step (feed : Feed)
    (acc : list Article * gset pystr) (entry : Entry)
    : list Article * gset pystr :=
  let '(results, processed) := acc in
  match entry_identifier entry with
  | None => acc
  | Some identifier =>
      if negb (truthy identifier) || bool_decide (identifier ∈ processed)
      then acc
      else
        let title := entry_title entry in
        let summary := entry_summary entry in
        let combined := entry_combined entry in
        if negb (article_matches combined) then acc
        else
          let translated := translated_text feed combined in
          (results ++ [{| a_id := identifier;
                          a_source := f_name feed;
                          a_title := strip title;
                          a_summary := strip summary;
                          a_translation := strip translated;
                          a_link := default [] (e_link entry);
                          a_published := default [] (e_published entry) |}],
           {[identifier]} ∪ processed)
  end.

(** [fetch_feed]: the result or the exception, and the set as the call
    leaves it. *)
Definition fetch_feed (feed : Feed) (processed : gset pystr)
    : (exn + list Article) * gset pystr :=
  match feedparser_parse w (f_url feed) with
  | inl exc => (inl exc, processed)
  | inr entries =>
      let '(results, processed') :=
        foldl (feed_entry_step feed) ([], processed) entries in
      (inr results, processed')
  end.

(** ** Scrape adapter *)

Definition moleg_matches (title : pystr) : bool :=
  existsb (fun kw => contains kw title) (KEYWORDS_KO cfg).

(** The absolute URL of an anchor's [href]. *)
Definition absolute_link (href : pystr) : pystr :=
  if startswith href (u "/")
  then u "https://www.moleg.go.kr" ++ href
  else href.

Definition moleg_step (acc : list Article * gset pystr)
    (anchor : pystr * option pystr) : list Article * gset pystr :=
  let '(results, processed) := acc in
  let '(title, href) := anchor in
  match href with
  | None => acc
  | Some href =>
      if negb (truthy href) then acc
      else
        let full_link := absolute_link href in
        let identifier := full_link in
        if bool_decide (identifier ∈ processed) then acc
        else if negb (moleg_matches title) then acc
        else
          (results ++ [{| a_id := identifier;
                          a_source := u "법제처 공공데이터";
                          a_title := title;
                          a_summary := title;
                          a_translation := title;
                          a_link := full_link;
                          a_published := [] |}],
           {[identifier]} ∪ processed)
  end.

Definition fetch_moleg_public_data (processed : gset pystr)
    : M (list Article * gset pystr) :=
  match moleg_anchors w with
  | inr anchors => ret (foldl moleg_step ([], processed) anchors)
  | inl exc =>
      print (u "Error scraping MOLEG public data page: " ++ str_exn exc);;
      ret ([], processed)
  end.

(** ** Digest assembler *)

Definition digest_block (idx : nat) (item : Article) : list pystr :=
  [str_of_nat idx ++ u ". [" ++ a_source item ++ u "] " ++ a_title item]
  ++ (if truthy (a_published item)
      then [u "   발행일: " ++ a_published item] else [])
  ++ [u "   원문 요약: " ++ a_summary item]
  ++ (if truthy (a_translation item)
         && bool_decide (a_translation item ≠ a_summary item)
      then [u "   한국어 번역: " ++ a_translation item] else [])
  ++ (if truthy (a_link item)
      then [u "   링크: " ++ a_link item] else [])
  ++ [[]].

Fixpoint digest_blocks (idx : nat) (entries : list Article) : list pystr :=
  match entries with
  | [] => []
  | item :: rest => digest_block idx item ++ digest_blocks (S idx) rest
  end.

Definition digest_lines (entries : list Article) : list pystr :=
  [u "규제 준수 뉴스 요약 – " ++ now w ++ u " (Asia/Seoul 기준)";
   replicate 60 8722%N]
  ++ digest_blocks 1 entries.

Definition build_digest (entries : list Article) : pystr :=
  join [10%N] (digest_lines entries).

(** ** Mail delivery *)

Definition send_email (subject body : pystr) : M unit :=
  let smtp_host := environ w (u "SMTP_HOST") in
  smtp_port ←
    lift (int_of_str py (default (u "465") (environ w (u "SMTP_PORT"))));
  let smtp_user := environ w (u "SMTP_USER") in
  let smtp_pass := environ w (u "SMTP_PASSWORD") in
  let recipients := split_on 44%N (default [] (environ w (u "EMAIL_TO"))) in
  if negb (opt_truthy smtp_host && opt_truthy smtp_user
           && opt_truthy smtp_pass
           && match recipients with [] => false | _ :: _ => true end)
  then
    raise (RuntimeError
             (u "SMTP credentials or recipient list not configured"))
  else
    let req := {| smtp_host := default [] smtp_host;
                  smtp_port := smtp_port;
                  smtp_user := default [] smtp_user;
                  smtp_pass := default [] smtp_pass;
                  smtp_recipients := recipients;
                  smtp_subject := subject;
                  smtp_body := body |} in
    emit (SmtpSend req);;
    match smtp_session w req with
    | Some exc => raise exc
    | None => ret tt
    end.

(** ** Run orchestrator *)

(** The loop of [run_once] over [FEEDS]. *)
Fixpoint fetch_all_feeds (feeds : list Feed) (all_entries : list Article)
    (processed : gset pystr) : M (list Article * gset pystr) :=
  match feeds with
  | [] => ret (all_entries, processed)
  | feed :: rest =>
      match fetch_feed feed processed with
      | (inr entries, processed') =>
          fetch_all_feeds rest (all_entries ++ entries) processed'
      | (inl exc, processed') =>
          print (u "Error processing feed " ++ f_name feed ++ u ": "
                 ++ str_exn exc);;
          fetch_all_feeds rest all_entries processed'
      end
  end.

(** [all_entries.sort(key=lambda x: x.get("published", ""), reverse=True)] *)
Definition sort_by_published (entries : list Article) : list Article :=
  stable_sort (fun x y => str_leb (a_published y) (a_published x)) entries.

Definition run_once : M unit :=
  processed ← load_processed;
  '(all_entries, processed) ← fetch_all_feeds (FEEDS cfg) [] processed;
  '(more_entries, processed) ← fetch_moleg_public_data processed;
  let all_entries := all_entries ++ more_entries in
  save_processed processed;;
  match all_entries with
  | _ :: _ =>
      let all_entries := sort_by_published all_entries in
      let body := build_digest all_entries in
      let subject :=
        u "[Compliance Digest] 신규 규제 소식 / 법률 변경 알림" in
      send_email subject body;;
      print (u "Sent digest with " ++ str_of_nat (length all_entries)
             ++ u " articles.")
  | [] => print (u "No new articles matched the keywords.")
  end.

(* =================================================================== *)
(** * Vocabulary of the statements *)
(* =================================================================== *)

(** [needle] occurs in [hay] as a contiguous run. *)
Definition Substring (needle hay : pystr) : Prop :=
  exists pre post, hay = pre ++ needle ++ post.

(** The state after further effects [evs]. *)
Definition add_trace (st : State) (evs : list Event) : State :=
  {| file := file st; trace := trace st ++ evs |}.

(** What [save_processed] writes. *)
Definition file_text (processed : gset pystr) : pystr :=
  concat ((fun item => item ++ [10%N]) <$> sorted processed).

(** An identifier that a line of the backing file can hold: no line break
    inside, no white space around. *)
Definition storable (x : pystr) : Prop :=
  strip x = x /\ 10%N ∉ x /\ 13%N ∉ x.

(** The set [load_processed] reads from a file system. *)
Definition stored_set (f : option pystr) : gset pystr :=
  match f with
  | None => ∅
  | Some text => list_to_set (strip <$> text_lines text)
  end.

(** The state [save_processed] leaves after the effects [evs]. *)
Definition saved_state (st : State) (evs : list Event)
    (processed : gset pystr) : State :=
  {| file := Some (file_text processed);
     trace := trace st ++ evs ++ [FileWritten (file_text processed)] |}.

(** The first line of the block of [item] when it is the [idx]-th. *)
Definition block_heading (idx : nat) (item : Article) : pystr :=
  str_of_nat idx ++ u ". [" ++ a_source item ++ u "] " ++ a_title item.

(** The identifiers of a list of records, as a set. *)
Definition ids (records : list Article) : gset pystr :=
  list_to_set (a_id <$> records).

(** A feed entry that has the identifier [x] and passes the keyword filter
    of the feed adapter. *)
Definition entry_passes (entry : Entry) (x : pystr) : Prop :=
  entry_identifier entry = Some x /\ truthy x = true
  /\ article_matches (entry_combined entry) = true.

(** An anchor of the scraped page that has the identifier [x] and passes
    the keyword filter of the scrape adapter. *)
Definition anchor_passes (anchor : pystr * option pystr) (x : pystr)
    : Prop :=
  exists href, anchor.2 = Some href /\ truthy href = true
               /\ x = absolute_link href
               /\ moleg_matches anchor.1 = true.

(** Some entry of a feed among [feeds] that could be parsed has the
    identifier [x] and passes the filter. *)
Definition feeds_offer (feeds : list Feed) (x : pystr) : Prop :=
  exists feed entries entry,
    feed ∈ feeds /\ feedparser_parse w (f_url feed) = inr entries
    /\ entry ∈ entries /\ entry_passes entry x.

(** Some anchor of the scraped page has the identifier [x] and passes the
    filter. *)
Definition moleg_offers (x : pystr) : Prop :=
  exists anchors anchor,
    moleg_anchors w = inr anchors /\ anchor ∈ anchors
    /\ anchor_passes anchor x.

(** The order of the digest: [a] may stand before [b]. *)
Definition published_desc (a b : Article) : Prop :=
  str_leb (a_published b) (a_published a) = true.

(** The subject line of the digest mail. *)
Definition digest_subject : pystr :=
  u "[Compliance Digest] 신규 규제 소식 / 법률 변경 알림".

(** [r] is the record the feed adapter builds from [entry] of [feed]. *)
Definition feed_record (feed : Feed) (entry : Entry) (r : Article) : Prop :=
  entry_identifier entry = Some (a_id r) /\ truthy (a_id r) = true
  /\ article_matches (entry_combined entry) = true
  /\ a_source r = f_name feed
  /\ a_title r = strip (entry_title entry)
  /\ a_summary r = strip (entry_summary entry)
  /\ a_translation r = strip (translated_text feed (entry_combined entry))
  /\ a_link r = default [] (e_link entry)
  /\ a_published r = default [] (e_published entry).

(** [r] is the record the scrape adapter builds from [anchor]. *)
Definition moleg_record (anchor : pystr * option pystr) (r : Article)
    : Prop :=
  exists href,
    anchor.2 = Some href /\ truthy href = true
    /\ moleg_matches anchor.1 = true
    /\ a_id r = absolute_link href /\ a_link r = absolute_link href
    /\ a_source r = u "법제처 공공데이터"
    /\ a_title r = anchor.1 /\ a_summary r = anchor.1
    /\ a_translation r = anchor.1 /\ a_published r = [].

(* =================================================================== *)
(** * Properties of the string operations *)
(* =================================================================== *)

Lemma startswith_spec (s p : pystr) :
  startswith s p = true <-> exists t, s = p ++ t.
Proof.
  revert s. induction p as [|a p IH]; intros [|b s]; simpl.
  - split; [intros _; by exists [] | done].
  - split; [intros _; by exists (b :: s) | done].
  - split; [done | intros [t Ht]; discriminate].
  - rewrite andb_true_iff, N.eqb_eq, IH. split.
    + intros [-> [t ->]]. by exists t.
    + intros [t Ht]. injection Ht as -> ->. eauto.
Qed.

Lemma contains_spec (needle hay : pystr) :
  contains needle hay = true <-> Substring needle hay.
Proof.
  unfold Substring. induction hay as [|c hay IH].
  - cbn [contains]. rewrite orb_false_r, startswith_spec. split.
    + intros [t Ht]. exists [], t. done.
    + intros [pre [post H]]. destruct pre; [|discriminate].
      simpl in H. by exists post.
  - cbn [contains]. rewrite orb_true_iff, startswith_spec, IH. split.
    + intros [[t Ht] | [pre [post H]]].
      * by exists [], t.
      * exists (c :: pre), post. by rewrite H.
    + intros [pre [post H]]. destruct pre as [|b pre].
      * left. by exists post.
      * right. injection H as -> ->. eauto.
Qed.

Lemma existsb_contains (hay : pystr) (f : pystr -> pystr)
    (kws : list pystr) :
  existsb (fun kw => contains (f kw) hay) kws = true
  <-> exists kw, kw ∈ kws /\ Substring (f kw) hay.
Proof.
  rewrite existsb_exists. split.
  - intros [kw [Hin Hc]]. exists kw.
    by rewrite list_elem_of_In, <- contains_spec.
  - intros [kw [Hin Hc]]. exists kw.
    by rewrite <- list_elem_of_In, contains_spec.
Qed.

(** ** [strip] *)

Lemma lstrip_elem (s : pystr) (c : N) : c ∈ lstrip s -> c ∈ s.
Proof.
  induction s as [|a s IH]; simpl; [done|].
  destruct (isspace a); [|done]. intros H. right. auto.
Qed.

Lemma rstrip_elem (s : pystr) (c : N) : c ∈ rstrip s -> c ∈ s.
Proof.
  induction s as [|a s IH]; simpl; [done|].
  destruct (rstrip s) as [|b t] eqn:E.
  - destruct (isspace a); [by intros ?%elem_of_nil|].
    intros ->%list_elem_of_singleton. left.
  - intros [->|H]%elem_of_cons; [left | right; auto].
Qed.

Lemma strip_elem (s : pystr) (c : N) : c ∈ strip s -> c ∈ s.
Proof. intros H. by apply lstrip_elem, rstrip_elem. Qed.

Lemma lstrip_idemp (s : pystr) : lstrip (lstrip s) = lstrip s.
Proof.
  induction s as [|a s IH]; simpl; [done|].
  destruct (isspace a) eqn:E; [done|]. simpl. by rewrite E.
Qed.

Lemma rstrip_idemp (s : pystr) : rstrip (rstrip s) = rstrip s.
Proof.
  induction s as [|a s IH]; simpl; [done|].
  destruct (rstrip s) as [|b t] eqn:E.
  - destruct (isspace a) eqn:Ea; [done|]. simpl. by rewrite Ea.
  - cbn [rstrip]. cbn [rstrip] in IH. by rewrite IH.
Qed.

Lemma rstrip_lstrip (s : pystr) : rstrip (lstrip s) = lstrip (rstrip s).
Proof.
  induction s as [|a s IH]; [done|].
  cbn [lstrip rstrip]. destruct (isspace a) eqn:Ea.
  - rewrite IH. destruct (rstrip s) as [|b t]; simpl; by rewrite ?Ea.
  - cbn [rstrip]. destruct (rstrip s) as [|b t]; simpl; by rewrite Ea.
Qed.

Lemma strip_idemp (s : pystr) : strip (strip s) = strip s.
Proof.
  unfold strip.
  by rewrite <- (rstrip_lstrip (lstrip s)), lstrip_idemp, rstrip_idemp.
Qed.

Lemma rstrip_app_space (s : pystr) (c : N) :
  isspace c = true -> rstrip (s ++ [c]) = rstrip s.
Proof.
  intros Hc. induction s as [|a s IH]; simpl; [by rewrite Hc|].
  by rewrite IH.
Qed.

Lemma strip_app_space (s : pystr) (c : N) :
  isspace c = true -> strip (s ++ [c]) = strip s.
Proof.
  intros Hc. unfold strip.
  by rewrite !rstrip_lstrip, rstrip_app_space.
Qed.

Lemma rstrip_app_nonspace (s : pystr) (c : N) :
  isspace c = false -> rstrip (s ++ [c]) = s ++ [c].
Proof.
  intros Hc. induction s as [|a s IH]; simpl; [by rewrite Hc|].
  rewrite IH. by destruct s.
Qed.

(** A string that neither starts nor ends with white space is left alone. *)
Lemma strip_delimited (a b : N) (s : pystr) :
  isspace a = false -> isspace b = false ->
  strip (a :: s ++ [b]) = a :: s ++ [b].
Proof.
  intros Ha Hb. unfold strip. cbn [lstrip]. rewrite Ha.
  by rewrite (app_comm_cons s [b] a), rstrip_app_nonspace.
Qed.

(** ** The order on strings *)

Lemma str_ltb_irrefl (a : pystr) : str_ltb a a = false.
Proof.
  induction a as [|x a IH]; simpl; [done|].
  by rewrite N.ltb_irrefl, N.eqb_refl, IH.
Qed.

Lemma str_ltb_trans (a b c : pystr) :
  str_ltb a b = true -> str_ltb b c = true -> str_ltb a c = true.
Proof.
  revert b c. induction a as [|x a IH]; intros [|y b] [|z c]; simpl;
    try done.
  rewrite !orb_true_iff, !andb_true_iff, !N.ltb_lt, !N.eqb_eq.
  intros [Hxy | [-> Hab]] [Hyz | [-> Hbc]].
  - left. lia.
  - by left.
  - by left.
  - right. eauto.
Qed.

Lemma str_ltb_trichotomy (a b : pystr) :
  str_ltb a b = false -> str_ltb b a = false -> a = b.
Proof.
  revert b. induction a as [|x a IH]; intros [|y b]; simpl; try done.
  rewrite !orb_false_iff, !andb_false_iff, !N.ltb_ge, !N.eqb_neq.
  intros [Hxy [Hne | Hab]] [Hyx [Hne' | Hba]]; try lia.
  assert (x = y) as -> by lia. f_equal. by apply IH.
Qed.

Lemma str_leb_refl (a : pystr) : str_leb a a = true.
Proof. unfold str_leb. by rewrite str_ltb_irrefl. Qed.

Lemma str_leb_total (a b : pystr) :
  str_leb a b = false -> str_leb b a = true.
Proof.
  unfold str_leb. rewrite negb_false_iff, negb_true_iff. intros Hba.
  destruct (str_ltb a b) eqn:Hab; [|done].
  pose proof (str_ltb_irrefl a) as Haa.
  by rewrite (str_ltb_trans _ _ _ Hab Hba) in Haa.
Qed.

Lemma str_leb_trans (a b c : pystr) :
  str_leb a b = true -> str_leb b c = true -> str_leb a c = true.
Proof.
  unfold str_leb. rewrite !negb_true_iff. intros Hba Hcb.
  destruct (str_ltb c a) eqn:Hca; [|done].
  destruct (str_ltb a b) eqn:Hab.
  - by rewrite (str_ltb_trans _ _ _ Hca Hab) in Hcb.
  - rewrite (str_ltb_trichotomy _ _ Hab Hba) in Hca. congruence.
Qed.

Lemma str_leb_antisym (a b : pystr) :
  str_leb a b = true -> str_leb b a = true -> a = b.
Proof.
  unfold str_leb. rewrite !negb_true_iff. intros Hba Hab.
  by apply str_ltb_trichotomy.
Qed.

(** The empty string is the least string. *)
Lemma str_leb_nil_r (a : pystr) : str_leb a [] = true -> a = [].
Proof. unfold str_leb. by destruct a. Qed.

(** ** The stable sort *)

Section SortFacts.
Context {A : Type} (le : A -> A -> bool).
Hypothesis le_total : forall x y, le x y = false -> le y x = true.
Hypothesis le_trans :
  forall x y z, le x y = true -> le y z = true -> le x z = true.

Lemma insert_sorted_perm (x : A) (l : list A) :
  insert_sorted le x l ≡ₚ x :: l.
Proof.
  induction l as [|y l IH]; simpl; [done|].
  destruct (le x y); [done|]. rewrite IH. apply Permutation_swap.
Qed.

Lemma stable_sort_perm (l : list A) : stable_sort le l ≡ₚ l.
Proof.
  induction l as [|x l IH]; simpl; [done|].
  by rewrite insert_sorted_perm, IH.
Qed.

Lemma insert_sorted_sorted (x : A) (l : list A) :
  StronglySorted (fun a b => le a b = true) l ->
  StronglySorted (fun a b => le a b = true) (insert_sorted le x l).
Proof.
  induction 1 as [|y l Hl IH Hy]; simpl.
  - repeat constructor.
  - destruct (le x y) eqn:Hxy.
    + constructor; [by constructor|]. constructor; [done|].
      eapply Forall_impl; [exact Hy|]. intros z Hz. eauto.
    + constructor; [done|]. rewrite insert_sorted_perm.
      constructor; [auto | done].
Qed.

Lemma stable_sort_sorted (l : list A) :
  StronglySorted (fun a b => le a b = true) (stable_sort le l).
Proof.
  induction l as [|x l IH]; simpl; [constructor|].
  by apply insert_sorted_sorted.
Qed.
End SortFacts.

(* =================================================================== *)
(** * The adapters *)
(* =================================================================== *)

(** A loop that, like both adapters, either appends one record and adds
    its identifier, or leaves the accumulator alone. *)
Section AdapterLoop.
Context {T : Type}.
Variable step : list Article * gset pystr -> T -> list Article * gset pystr.
Variable passes : T -> pystr -> Prop.
Hypothesis step_cases : forall results processed item,
  (exists x r, passes item x /\ (forall y, passes item y -> y = x)
     /\ (x ∉ processed) /\ a_id r = x
     /\ step (results, processed) item
        = (results ++ [r], {[x]} ∪ processed))
  \/ (step (results, processed) item = (results, processed)
      /\ forall x, passes item x -> x ∈ processed).

Lemma adapter_loop_spec (items : list T) (results : list Article)
    (processed : gset pystr) :
  exists new processed',
    foldl step (results, processed) items = (results ++ new, processed')
    /\ processed' = processed ∪ ids new
    /\ (forall r, r ∈ new -> a_id r ∉ processed)
    /\ (forall x, x ∈ processed' <->
          x ∈ processed \/ exists item, item ∈ items /\ passes item x).
Proof.
  revert results processed.
  induction items as [|item items IH]; intros results processed.
  - exists [], processed. simpl. rewrite app_nil_r.
    unfold ids. split_and!; [done | set_solver | set_solver |].
    intros x. split; [auto|]. intros [?|[item [Hin _]]]; [done|].
    by apply elem_of_nil in Hin.
  - simpl.
    destruct (step_cases results processed item)
      as [[x [r (Hp & Huniq & Hx & Hr & ->)]] | [-> Hskip]].
    + destruct (IH (results ++ [r]) ({[x]} ∪ processed))
        as (new & P' & -> & -> & Hnew & Hiff).
      exists (r :: new), ({[x]} ∪ processed ∪ ids new).
      split_and!.
      * by rewrite <- app_assoc.
      * unfold ids. rewrite fmap_cons, Hr. set_solver.
      * intros r' [->|Hin]%elem_of_cons; [by rewrite Hr|].
        specialize (Hnew r' Hin). set_solver.
      * intros y. rewrite Hiff. split.
        -- intros [[Hy|Hy]%elem_of_union | [it [Hin Hit]]].
           ++ apply elem_of_singleton in Hy as ->. right.
              exists item. split; [left | done].
           ++ by left.
           ++ right. exists it. split; [by right | done].
        -- intros [Hy | [it [[->|Hin]%elem_of_cons Hit]]].
           ++ left. set_solver.
           ++ rewrite (Huniq y Hit). left. set_solver.
           ++ right. eauto.
    + destruct (IH results processed)
        as (new & P' & -> & -> & Hnew & Hiff).
      exists new, (processed ∪ ids new). split_and!; try done.
      intros y. rewrite Hiff. split.
      * intros [Hy | [it [Hin Hit]]]; [by left|].
        right. exists it. split; [by right | done].
      * intros [Hy | [it [[->|Hin]%elem_of_cons Hit]]]; [by left| |].
        -- left. by apply Hskip.
        -- right. eauto.
Qed.
End AdapterLoop.

Lemma feed_entry_step_cases (feed : Feed) (results : list Article)
    (processed : gset pystr) (entry : Entry) :
  (exists x r, entry_passes entry x
     /\ (forall y, entry_passes entry y -> y = x)
     /\ (x ∉ processed) /\ a_id r = x
     /\ feed_entry_step feed (results, processed) entry
        = (results ++ [r], {[x]} ∪ processed))
  \/ (feed_entry_step feed (results, processed) entry
        = (results, processed)
      /\ forall x, entry_passes entry x -> x ∈ processed).
Proof.
  unfold feed_entry_step, entry_passes.
  destruct (entry_identifier entry) as [x|] eqn:Hid.
  - destruct (truthy x) eqn:Ht; simpl.
    + case_bool_decide as Hin.
      * right. split; [done|]. by intros y [[= <-] _].
      * destruct (article_matches (entry_combined entry)) eqn:Hm; simpl.
        -- left. eexists x, _.
           split; [done|]. split; [by intros y [[= <-] _]|].
           split; [done|]. split; [|reflexivity]. done.
        -- right. split; [done|]. by intros y (_ & _ & ?).
    + right. split; [done|]. intros y [[= <-] [? _]]. congruence.
  - right. split; [done|]. by intros y [? _].
Qed.

Lemma moleg_step_cases (results : list Article) (processed : gset pystr)
    (anchor : pystr * option pystr) :
  (exists x r, anchor_passes anchor x
     /\ (forall y, anchor_passes anchor y -> y = x)
     /\ (x ∉ processed) /\ a_id r = x
     /\ moleg_step (results, processed) anchor
        = (results ++ [r], {[x]} ∪ processed))
  \/ (moleg_step (results, processed) anchor = (results, processed)
      /\ forall x, anchor_passes anchor x -> x ∈ processed).
Proof.
  unfold moleg_step, anchor_passes. destruct anchor as [title [href|]];
    simpl.
  - destruct (truthy href) eqn:Ht; simpl.
    + case_bool_decide as Hin.
      * right. split; [done|]. by intros y (h & [= <-] & _ & -> & _).
      * destruct (moleg_matches title) eqn:Hm; simpl.
        -- left. eexists (absolute_link href), _.
           split; [by exists href|].
           split; [by intros y (h & [= <-] & _ & -> & _)|].
           split; [done|]. split; [|reflexivity]. done.
        -- right. split; [done|]. by intros y (h & _ & _ & _ & ?).
    + right. split; [done|]. intros y (h & [= <-] & ? & _). congruence.
  - right. split; [done|]. by intros y (h & ? & _).
Qed.

(** [fetch_feed] on a feed that can be parsed. *)
Lemma fetch_feed_spec (feed : Feed) (entries : list Entry)
    (processed : gset pystr) :
  feedparser_parse w (f_url feed) = inr entries ->
  exists new processed',
    fetch_feed feed processed = (inr new, processed')
    /\ processed' = processed ∪ ids new
    /\ (forall r, r ∈ new -> a_id r ∉ processed)
    /\ (forall x, x ∈ processed' <->
          x ∈ processed
          \/ exists entry, entry ∈ entries /\ entry_passes entry x).
Proof.
  intros Hparse. unfold fetch_feed. rewrite Hparse.
  destruct (adapter_loop_spec (feed_entry_step feed) entry_passes
              (feed_entry_step_cases feed) entries [] processed)
    as (new & P' & -> & HP & Hnew & Hiff).
  by exists new, P'.
Qed.

(** The loop of [run_once] over the feeds never raises, and what it
    returns does not depend on the state it starts in. *)
Lemma fetch_all_feeds_spec (feeds : list Feed) (all_entries : list Article)
    (processed : gset pystr) :
  exists new processed' msgs,
    (forall st, fetch_all_feeds feeds all_entries processed st
                = (inr (all_entries ++ new, processed'),
                   add_trace st (Printed <$> msgs)))
    /\ processed' = processed ∪ ids new
    /\ (forall r, r ∈ new -> a_id r ∉ processed)
    /\ (forall x, x ∈ processed' <->
          x ∈ processed \/ feeds_offer feeds x).
Proof.
  revert all_entries processed.
  induction feeds as [|feed feeds IH]; intros all_entries processed.
  - exists [], processed, []. split_and!.
    + intros [f t]. simpl. unfold ret, add_trace. simpl.
      by rewrite !app_nil_r.
    + unfold ids. set_solver.
    + set_solver.
    + intros x. split; [auto|]. intros [?|(f & es & e & Hf & _)]; [done|].
      by apply elem_of_nil in Hf.
  - cbn [fetch_all_feeds].
    destruct (feedparser_parse w (f_url feed)) as [exc|entries] eqn:Hparse.
    + unfold fetch_feed. rewrite Hparse.
      destruct (IH all_entries processed)
        as (new & P' & msgs & Hrun & HP & Hnew & Hiff).
      exists new, P',
        ((u "Error processing feed " ++ f_name feed ++ u ": "
          ++ str_exn exc) :: msgs).
      split_and!; try done.
      * intros [f t]. unfold mbind, M_bind, bind, print, emit. simpl.
        rewrite Hrun. unfold add_trace. simpl.
        by rewrite <- app_assoc.
      * intros x. rewrite Hiff. split.
        -- intros [?|(f & es & e & Hf & Hrest)]; [by left|].
           right. exists f, es, e. split; [by right | done].
        -- intros [?|(f & es & e & [->|Hf]%elem_of_cons & He & Hrest)];
             [by left | congruence |].
           right. by exists f, es, e.
    + destruct (fetch_feed_spec feed entries processed Hparse)
        as (new1 & P1 & -> & HP1 & Hnew1 & Hiff1).
      destruct (IH (all_entries ++ new1) P1)
        as (new & P' & msgs & Hrun & HP & Hnew & Hiff).
      exists (new1 ++ new), P', msgs. split_and!.
      * intros st. by rewrite Hrun, app_assoc.
      * unfold ids in *. rewrite fmap_app. set_solver.
      * intros r [Hr|Hr]%elem_of_app; [auto|].
        specialize (Hnew r Hr). set_solver.
      * intros x. rewrite Hiff, Hiff1. split.
        -- intros [[?|(e & He & Hpass)] | (f & es & e0 & Hf & Hrest)].
           ++ by left.
           ++ right. exists feed, entries, e. split; [left | done].
           ++ right. exists f, es, e0. split; [by right | done].
        -- intros [?|(f & es & e & [->|Hf]%elem_of_cons & He & Hin & Hp)].
           ++ by left; left.
           ++ left; right. exists e. split; [congruence | done].
           ++ right. by exists f, es, e.
Qed.

Lemma fetch_moleg_public_data_spec (processed : gset pystr) :
  exists new processed' msgs,
    (forall st, fetch_moleg_public_data processed st
                = (inr (new, processed'), add_trace st (Printed <$> msgs)))
    /\ processed' = processed ∪ ids new
    /\ (forall r, r ∈ new -> a_id r ∉ processed)
    /\ (forall x, x ∈ processed' <-> x ∈ processed \/ moleg_offers x).
Proof.
  unfold fetch_moleg_public_data, moleg_offers.
  destruct (moleg_anchors w) as [exc|anchors] eqn:Hpage.
  - exists [], processed,
      [u "Error scraping MOLEG public data page: " ++ str_exn exc].
    split_and!; [by intros [f t] | unfold ids; set_solver | set_solver|].
    intros x. split; [auto|]. by intros [?|(a & an & ? & _)].
  - destruct (adapter_loop_spec moleg_step anchor_passes moleg_step_cases
                anchors [] processed)
      as (new & P' & Hrun & HP & Hnew & Hiff).
    exists new, P', []. split_and!; try done.
    + intros [f t]. rewrite Hrun. unfold ret, add_trace. simpl.
      by rewrite app_nil_r.
    + intros x. rewrite Hiff. split.
      * intros [?|(a & Ha & Hp)]; [by left|]. right. by exists anchors, a.
      * intros [?|(an & a & [= <-] & Ha & Hp)]; [by left|]. right. eauto.
Qed.

(* =================================================================== *)
(** * The identifier store *)
(* =================================================================== *)

Lemma elem_of_rev {A} (l : list A) (x : A) : x ∈ rev l <-> x ∈ l.
Proof. by rewrite !list_elem_of_In, <- in_rev. Qed.

Lemma elem_of_concat {A} (ls : list (list A)) (x : A) :
  x ∈ concat ls <-> exists l, x ∈ l /\ l ∈ ls.
Proof.
  rewrite list_elem_of_In, in_concat. split.
  - intros (l & Hl & Hx). exists l. by rewrite !list_elem_of_In.
  - intros (l & Hx & Hl). exists l. by rewrite <- !list_elem_of_In.
Qed.

Lemma universal_newlines_no_cr (prev_cr : bool) (s : pystr) :
  13%N ∉ universal_newlines prev_cr s.
Proof.
  revert prev_cr. induction s as [|c s IH]; intros prev_cr; simpl.
  - apply not_elem_of_nil.
  - destruct (N.eqb_spec c 13) as [->|Hc].
    + intros [?|?]%elem_of_cons; [done | by eapply IH].
    + destruct ((c =? 10)%N && prev_cr); [apply IH|].
      intros [?|?]%elem_of_cons; [done | by eapply IH].
Qed.

Lemma universal_newlines_id (s : pystr) :
  13%N ∉ s -> universal_newlines false s = s.
Proof.
  induction s as [|c s IH]; simpl; [done|].
  intros [Hc Hs]%not_elem_of_cons.
  destruct (N.eqb_spec c 13) as [->|_]; [done|].
  rewrite andb_false_r. f_equal. auto.
Qed.

Lemma split_lines_shape (s cur l : pystr) :
  10%N ∉ cur -> l ∈ split_lines cur s ->
  exists body, (l = body ++ [10%N] \/ l = body) /\ 10%N ∉ body
               /\ forall c, c ∈ body -> c ∈ cur \/ c ∈ s.
Proof.
  revert cur. induction s as [|c s IH]; intros cur Hcur; simpl.
  - destruct cur as [|a cur]; [by intros ?%elem_of_nil|].
    intros ->%list_elem_of_singleton. exists (rev (a :: cur)).
    split_and!; [by right | by rewrite elem_of_rev |].
    intros c. rewrite elem_of_rev. auto.
  - destruct (N.eqb_spec c 10) as [->|Hc].
    + intros [->|Hl]%elem_of_cons.
      * exists (rev cur). split_and!; [by left | by rewrite elem_of_rev|].
        intros c. rewrite elem_of_rev. auto.
      * destruct (IH [] (not_elem_of_nil _) Hl) as (body & Hb & Hn & Hc).
        exists body. split_and!; [done..|].
        intros c Hin. destruct (Hc c Hin) as [?%elem_of_nil|?]; [done|].
        right. by right.
    + intros Hl. destruct (IH (c :: cur)) as (body & Hb & Hn & Hin);
        [by apply not_elem_of_cons | done |].
      exists body. split_and!; [done..|].
      intros d Hd. destruct (Hin d Hd) as [[->|?]%elem_of_cons|?];
        [right; left | by left | right; by right].
Qed.

(** What [load_processed] puts into the set can be stored again. *)
Lemma loaded_storable (text x : pystr) :
  x ∈ strip <$> text_lines text -> storable x.
Proof.
  intros (l & -> & Hl)%list_elem_of_fmap. unfold text_lines in Hl.
  destruct (split_lines_shape _ [] l (not_elem_of_nil _) Hl)
    as (body & Hshape & Hnl & Hchars).
  assert (strip l = strip body) as ->.
  { destruct Hshape as [->| ->]; [by apply strip_app_space | done]. }
  split_and!.
  - apply strip_idemp.
  - intros H%strip_elem. done.
  - intros H%strip_elem.
    destruct (Hchars _ H) as [?%elem_of_nil|Hcr]; [done|].
    by apply universal_newlines_no_cr in Hcr.
Qed.

Lemma split_lines_line (x cur rest : pystr) :
  10%N ∉ x ->
  split_lines cur (x ++ [10%N] ++ rest)
  = (rev cur ++ x ++ [10%N]) :: split_lines [] rest.
Proof.
  revert cur. induction x as [|c x IH]; intros cur Hx; simpl.
  - done.
  - apply not_elem_of_cons in Hx as [Hc Hx].
    destruct (N.eqb_spec c 10) as [->|_]; [done|].
    rewrite IH by done. simpl. by rewrite <- app_assoc.
Qed.

Lemma split_lines_written (items : list pystr) :
  Forall (fun x => 10%N ∉ x) items ->
  split_lines [] (concat ((fun item => item ++ [10%N]) <$> items))
  = (fun item => item ++ [10%N]) <$> items.
Proof.
  induction 1 as [|x items Hx _ IH]; [done|].
  rewrite fmap_cons. cbn [concat]. rewrite <- app_assoc.
  by rewrite split_lines_line, IH.
Qed.

Lemma text_lines_written (items : list pystr) :
  Forall storable items ->
  strip <$> text_lines (concat ((fun item => item ++ [10%N]) <$> items))
  = items.
Proof.
  intros Hitems. unfold text_lines.
  rewrite universal_newlines_id.
  - rewrite split_lines_written
      by (eapply Forall_impl; [exact Hitems|]; by intros x (_ & ? & _)).
    rewrite <- list_fmap_compose.
    rewrite <- (list_fmap_id items) at 2.
    apply Forall_fmap_ext_1. eapply Forall_impl; [exact Hitems|].
    intros x (Hx & _). simpl. by rewrite strip_app_space.
  - intros (l & Hchar & (x & -> & Hx)%list_elem_of_fmap)%elem_of_concat.
    apply elem_of_app in Hchar as [Hchar|Hchar%list_elem_of_singleton];
      [|done].
    rewrite Forall_forall in Hitems.
    by destruct (Hitems x Hx) as (_ & _ & ?).
Qed.

Lemma sorted_perm (processed : gset pystr) :
  sorted processed ≡ₚ elements processed.
Proof. apply stable_sort_perm. Qed.

Lemma sorted_ascending (processed : gset pystr) :
  StronglySorted (fun a b => str_ltb a b = true) (sorted processed).
Proof.
  assert (NoDup (sorted processed)) as Hnd.
  { rewrite sorted_perm. apply NoDup_elements. }
  pose proof (stable_sort_sorted str_leb str_leb_total str_leb_trans
                (elements processed)) as Hs.
  fold (sorted processed) in Hs.
  induction Hs as [|a l Hl IH Ha]; [constructor|].
  apply NoDup_cons in Hnd as [Hnin Hnd].
  constructor; [auto|]. rewrite Forall_forall in Ha |- *.
  intros b Hb. specialize (Ha b Hb). unfold str_leb in Ha.
  apply negb_true_iff in Ha.
  destruct (str_ltb a b) eqn:Hab; [done|].
  by rewrite (str_ltb_trichotomy _ _ Hab Ha) in Hnin.
Qed.

Lemma list_to_set_sorted (processed : gset pystr) :
  list_to_set (sorted processed) = processed.
Proof. by rewrite sorted_perm, list_to_set_elements_L. Qed.

Lemma load_processed_eq (st : State) :
  load_processed st = (inr (stored_set (file st)), st).
Proof.
  unfold load_processed, mbind, M_bind, bind, read_file, stored_set. simpl.
  by destruct (file st).
Qed.

Lemma save_processed_eq (processed : gset pystr) (st : State) :
  save_processed processed st
  = (inr tt, saved_state st [] processed).
Proof. done. Qed.

(* =================================================================== *)
(** * Digest and delivery *)
(* =================================================================== *)


Lemma digest_blocks_imap (idx : nat) (entries : list Article) :
  digest_blocks idx entries
  = concat (imap (fun i item => digest_block (idx + i) item) entries).
Proof.
  revert idx. induction entries as [|item entries IH]; intros idx.
  - done.
  - cbn [digest_blocks]. rewrite imap_cons. cbn [concat].
    rewrite Nat.add_0_r, IH. apply (f_equal (app _)), (f_equal (@concat _)).
    apply imap_ext. intros i x _. simpl. f_equal. lia.
Qed.


(** The block of the [i]-th record is among the concatenated blocks, and
    of two records the block of the earlier one comes first. *)
Lemma concat_imap_lookup {A B} (f : nat -> A -> list B) (l : list A)
    (i : nat) (x : A) :
  l !! i = Some x ->
  exists before after, concat (imap f l) = before ++ f i x ++ after.
Proof.
  revert f i. induction l as [|z l IH]; intros f i; [done|].
  rewrite imap_cons. cbn [concat]. destruct i as [|i]; cbn [lookup].
  - intros [= ->]. by exists [], (concat (imap (f ∘ S) l)).
  - intros Hx. destruct (IH (f ∘ S) i Hx) as (before & after & ->).
    exists (f 0 z ++ before), after. by rewrite <- app_assoc.
Qed.

Lemma concat_imap_lookup_lt {A B} (f : nat -> A -> list B) (l : list A)
    (i j : nat) (x y : A) :
  l !! i = Some x -> l !! j = Some y -> i < j ->
  exists before between after,
    concat (imap f l) = before ++ f i x ++ between ++ f j y ++ after.
Proof.
  revert f i j. induction l as [|z l IH]; intros f i j; [done|].
  rewrite imap_cons. cbn [concat].
  destruct i as [|i], j as [|j]; cbn [lookup]; try lia.
  - intros [= ->] Hy _.
    destruct (concat_imap_lookup (f ∘ S) l j y Hy)
      as (between & after & ->).
    by exists [], between, after.
  - intros Hx Hy Hlt.
    destruct (IH (f ∘ S) i j Hx Hy ltac:(lia))
      as (before & between & after & ->).
    exists (f 0 z ++ before), between, after. by rewrite <- app_assoc.
Qed.

(** [send_email] leaves the file alone and opens at most one SMTP session,
    for the subject and body it was given. *)
Lemma send_email_effect (subject body : pystr) (st : State) :
  exists out evs,
    send_email subject body st = (out, add_trace st evs)
    /\ (evs = []
        \/ exists req, evs = [SmtpSend req]
                       /\ smtp_subject req = subject
                       /\ smtp_body req = body).
Proof.
  unfold send_email, mbind, M_bind, bind, lift.
  destruct (int_of_str py _) as [exc|port]; simpl.
  - exists (inl exc), []. split; [|by left].
    unfold raise, add_trace. destruct st. simpl. by rewrite app_nil_r.
  - destruct (negb _).
    + eexists _, []. split; [|by left].
      unfold raise, add_trace. destruct st. simpl. by rewrite app_nil_r.
    + unfold emit. simpl.
      destruct (smtp_session w _) as [exc|];
        (eexists _, [SmtpSend _]; split; [reflexivity|right]);
        by eexists.
Qed.

(** One run, phase by phase: the fetch phase never raises; the store is
    then written; what follows is the delivery or the report that there is
    nothing to deliver. *)
Lemma run_once_spec (st : State) :
  exists E1 P1 msgs1 E2 P2 msgs2,
    (forall st0, fetch_all_feeds (FEEDS cfg) [] (stored_set (file st)) st0
                 = (inr (E1, P1), add_trace st0 (Printed <$> msgs1)))
    /\ (forall st0, fetch_moleg_public_data P1 st0
                    = (inr (E2, P2), add_trace st0 (Printed <$> msgs2)))
    /\ run_once st
       = let saved :=
           saved_state st (Printed <$> (msgs1 ++ msgs2)) P2 in
         match E1 ++ E2 with
         | [] => print (u "No new articles matched the keywords.") saved
         | _ :: _ =>
             (send_email digest_subject
                (build_digest (sort_by_published (E1 ++ E2)));;
              print (u "Sent digest with "
                     ++ str_of_nat
                          (length (sort_by_published (E1 ++ E2)))
                     ++ u " articles.")) saved
         end.
Proof.
  destruct (fetch_all_feeds_spec (FEEDS cfg) [] (stored_set (file st)))
    as (E1 & P1 & msgs1 & Hfeeds & _).
  destruct (fetch_moleg_public_data_spec P1)
    as (E2 & P2 & msgs2 & Hmoleg & _).
  exists E1, P1, msgs1, E2, P2, msgs2. split_and!; [done..|].
  unfold run_once. unfold mbind at 1, M_bind at 1, bind at 1.
  rewrite load_processed_eq.
  unfold mbind at 1, M_bind at 1, bind at 1. rewrite Hfeeds.
  unfold mbind at 1, M_bind at 1, bind at 1. rewrite Hmoleg.
  unfold mbind at 1, M_bind at 1, bind at 1. rewrite save_processed_eq.
  assert (saved_state (add_trace (add_trace st (Printed <$> msgs1))
                         (Printed <$> msgs2)) [] P2
          = saved_state st (Printed <$> (msgs1 ++ msgs2)) P2) as ->.
  { unfold saved_state, add_trace. simpl. f_equal.
    by rewrite fmap_app, <- !app_assoc. }
  change ([] ++ E1) with E1. unfold digest_subject.
  destruct (E1 ++ E2); reflexivity.
Qed.

(** The same run as a trace: the messages of the fetch phase, the one
    write of the store, then [tail]: the report that nothing matched, or
    the effects of [send_email] followed, if it returns, by the report. *)
Lemma run_once_trace (st : State) :
  exists E1 P1 msgs1 E2 P2 msgs2 out tail,
    (forall st0, fetch_all_feeds (FEEDS cfg) [] (stored_set (file st)) st0
                 = (inr (E1, P1), add_trace st0 (Printed <$> msgs1)))
    /\ (forall st0, fetch_moleg_public_data P1 st0
                    = (inr (E2, P2), add_trace st0 (Printed <$> msgs2)))
    /\ run_once st
       = (out, add_trace
                 (saved_state st (Printed <$> (msgs1 ++ msgs2)) P2) tail)
    /\ (E1 ++ E2 = [] ->
        out = inr tt
        /\ tail = [Printed (u "No new articles matched the keywords.")])
    /\ (E1 ++ E2 <> [] ->
        exists out' evs,
          send_email digest_subject
            (build_digest (sort_by_published (E1 ++ E2)))
            (saved_state st (Printed <$> (msgs1 ++ msgs2)) P2)
          = (out', add_trace
                     (saved_state st (Printed <$> (msgs1 ++ msgs2)) P2)
                     evs)
          /\ (evs = []
              \/ exists req,
                   evs = [SmtpSend req]
                   /\ smtp_subject req = digest_subject
                   /\ smtp_body req
                      = build_digest (sort_by_published (E1 ++ E2)))
          /\ ((out' = inr tt /\ out = inr tt
               /\ exists msg, tail = evs ++ [Printed msg])
              \/ (exists exc, out' = inl exc /\ out = inl exc
                              /\ tail = evs))).
Proof.
  destruct (run_once_spec st)
    as (E1 & P1 & msgs1 & E2 & P2 & msgs2 & Hfeeds & Hmoleg & Hrun).
  exists E1, P1, msgs1, E2, P2, msgs2.
  set (saved := saved_state st (Printed <$> (msgs1 ++ msgs2)) P2) in *.
  destruct (E1 ++ E2) as [|r E] eqn:HE.
  - eexists (inr tt), _. split_and!; [done | done | | done | done].
    rewrite Hrun. reflexivity.
  - destruct (send_email_effect digest_subject
                (build_digest (sort_by_published (r :: E))) saved)
      as (out' & evs & Hsend & Hevs).
    cbv zeta in Hrun. unfold mbind, M_bind, bind in Hrun.
    rewrite Hsend in Hrun. destruct out' as [exc|[]].
    + exists (inl exc), evs. split_and!; [done | done | done | done |].
      intros _. exists (inl exc), evs. split_and!; [done | done |].
      right. by exists exc.
    + eexists (inr tt), (evs ++ [_]).
      split_and!; [done | done | | done |].
      * rewrite Hrun. unfold print, emit, add_trace. simpl.
        by rewrite <- !app_assoc.
      * intros _. exists (inr tt), evs. split_and!; [done | done |].
        left. split_and!; [done | done |]. by eexists.
Qed.

Lemma StronglySorted_lookup {A} (R : A -> A -> Prop) (l : list A)
    (i j : nat) (x y : A) :
  StronglySorted R l -> l !! i = Some x -> l !! j = Some y -> i < j ->
  R x y.
Proof.
  intros Hs. revert i j. induction Hs as [|a l Hl IH Ha]; intros i j.
  - by rewrite lookup_nil.
  - destruct i as [|i], j as [|j]; simpl; try lia.
    + intros [= <-] Hy _. rewrite Forall_forall in Ha.
      apply Ha. by eapply list_elem_of_lookup_2.
    + intros Hx Hy Hij. apply (IH i j); [done | done | lia].
Qed.

(** What the trace of a run holds after the write of the store. *)
Lemma run_once_summary (st : State) :
  exists E1 P1 msgs1 E2 P2 msgs2 out tail,
    (forall st0, fetch_all_feeds (FEEDS cfg) [] (stored_set (file st)) st0
                 = (inr (E1, P1), add_trace st0 (Printed <$> msgs1)))
    /\ (forall st0, fetch_moleg_public_data P1 st0
                    = (inr (E2, P2), add_trace st0 (Printed <$> msgs2)))
    /\ run_once st
       = (out, add_trace
                 (saved_state st (Printed <$> (msgs1 ++ msgs2)) P2) tail)
    /\ (forall c, FileWritten c ∉ tail)
    /\ (forall req, SmtpSend req ∈ tail ->
          E1 ++ E2 <> []
          /\ smtp_subject req = digest_subject
          /\ smtp_body req = build_digest (sort_by_published (E1 ++ E2)))
    /\ (E1 ++ E2 = [] ->
        out = inr tt
        /\ tail = [Printed (u "No new articles matched the keywords.")])
    /\ (E1 ++ E2 <> [] ->
        exists out' sent,
          send_email digest_subject
            (build_digest (sort_by_published (E1 ++ E2)))
            (saved_state st (Printed <$> (msgs1 ++ msgs2)) P2)
          = (out', add_trace
                     (saved_state st (Printed <$> (msgs1 ++ msgs2)) P2)
                     sent)
          /\ ((out' = inr tt /\ out = inr tt
               /\ exists msg, tail = sent ++ [Printed msg])
              \/ (exists exc, out' = inl exc /\ out = inl exc
                              /\ tail = sent))).
Proof.
  destruct (run_once_trace st)
    as (E1 & P1 & msgs1 & E2 & P2 & msgs2 & out & tail
        & Hfeeds & Hmoleg & Hrun & Hempty & Hsome).
  exists E1, P1, msgs1, E2, P2, msgs2, out, tail.
  split_and!; [done | done | done | | | done |].
  3: { intros HE. destruct (Hsome HE) as (o & sent & Hs & _ & Ht).
       by exists o, sent. }
  - intros c Hc. destruct (decide (E1 ++ E2 = [])) as [HE|HE].
    + destruct (Hempty HE) as [_ ->].
      by apply list_elem_of_singleton in Hc.
    + destruct (Hsome HE) as (out' & evs & _ & Hevs & Htail).
      assert (FileWritten c ∉ evs) as Hn.
      { destruct Hevs as [->|(req & -> & _)];
          [apply not_elem_of_nil|]. by intros ?%list_elem_of_singleton. }
      destruct Htail as [(_ & _ & msg & ->) | (exc & _ & _ & ->)];
        [|done].
      apply elem_of_app in Hc as [?|Hc%list_elem_of_singleton]; done.
  - intros req Hreq. destruct (decide (E1 ++ E2 = [])) as [HE|HE].
    + destruct (Hempty HE) as [_ ->].
      by apply list_elem_of_singleton in Hreq.
    + split; [done|].
      destruct (Hsome HE) as (out' & evs & _ & Hevs & Htail).
      assert (SmtpSend req ∈ evs) as Hin.
      { destruct Htail as [(_ & _ & msg & ->) | (exc & _ & _ & ->)];
          [|done].
        apply elem_of_app in Hreq as [?|Hc%list_elem_of_singleton]; done. }
      destruct Hevs as [->|(req' & -> & Hsub & Hbody)];
        [by apply elem_of_nil in Hin|].
      apply list_elem_of_singleton in Hin. by injection Hin as ->.
Qed.


(* =================================================================== *)
(** * The claims of the design document *)
(* =================================================================== *)

Lemma placeholder_strip (msg : pystr) :
  strip (u "(번역 오류: " ++ msg ++ u ")")
  = u "(번역 오류: " ++ msg ++ u ")".
Proof.
  change (u "(번역 오류: ") with (40%N :: u "번역 오류: ").
  change (u ")") with [41%N].
  rewrite <- app_comm_cons, app_assoc. by apply strip_delimited.
Qed.

(** C10. A feed entry whose id, guid and link are each absent or empty is
    skipped: the adapter emits no record for it and leaves the identifier
    set as it is, also inside a longer feed.  When the id is absent or
    empty the identifier is the guid if that is non-empty, and the link
    otherwise; it is never an empty id. *)
Theorem C10_entry_without_identifier (feed : Feed) (entry : Entry) :
  (opt_truthy (e_id entry) = false ->
   opt_truthy (e_guid entry) = false ->
   opt_truthy (e_link entry) = false ->
   (forall acc, feed_entry_step feed acc entry = acc)
   /\ (forall acc before after,
         foldl (feed_entry_step feed) acc (before ++ entry :: after)
         = foldl (feed_entry_step feed) acc (before ++ after)))
  /\ (opt_truthy (e_id entry) = false ->
      opt_truthy (e_guid entry) = true ->
      entry_identifier entry = e_guid entry)
  /\ (opt_truthy (e_id entry) = false ->
      opt_truthy (e_guid entry) = false ->
      entry_identifier entry = e_link entry).
Proof.
  unfold entry_identifier, py_or. split_and!.
  - intros Hid Hguid Hlink.
    assert (forall acc, feed_entry_step feed acc entry = acc) as Hstep.
    { intros [results processed]. unfold feed_entry_step, entry_identifier,
        py_or. rewrite Hid, Hguid.
      destruct (e_link entry) as [l|]; [|done].
      simpl in Hlink. by rewrite Hlink. }
    split; [done|]. intros acc before after.
    rewrite !foldl_app. simpl. by rewrite Hstep.
  - intros -> Hguid. by rewrite Hguid.
  - intros -> Hguid. by rewrite Hguid.
Qed.

(** C7. For an entry of a feed whose language is not the target language,
    new and matching the keywords, a failure of the translator is not
    propagated: the entry is emitted with a translation that is the
    placeholder around the error text, and its identifier is added to the
    set; [fetch_feed] returns normally with that record among its
    results. *)
Theorem C7_translation_failure_contained (feed : Feed) (entry : Entry)
    (x : pystr) (exc : exn) :
  f_language feed <> u "ko" ->
  entry_passes entry x ->
  translate w (entry_combined entry) = inl exc ->
  (forall results processed,
     x ∉ processed ->
     exists r,
       feed_entry_step feed (results, processed) entry
       = (results ++ [r], {[x]} ∪ processed)
       /\ a_id r = x
       /\ a_translation r = u "(번역 오류: " ++ str_exn exc ++ u ")")
  /\ (forall before after processed,
        feedparser_parse w (f_url feed) = inr (before ++ entry :: after) ->
        x ∉ processed ->
        (forall e, e ∈ before -> entry_identifier e <> Some x) ->
        exists results processed' r,
          fetch_feed feed processed = (inr results, processed')
          /\ r ∈ results /\ a_id r = x
          /\ a_translation r = u "(번역 오류: " ++ str_exn exc ++ u ")"
          /\ x ∈ processed').
Proof.
  intros Hlang (Hid & Ht & Hm) Htr.
  assert (forall results processed,
     x ∉ processed ->
     exists r,
       feed_entry_step feed (results, processed) entry
       = (results ++ [r], {[x]} ∪ processed)
       /\ a_id r = x
       /\ a_translation r = u "(번역 오류: " ++ str_exn exc ++ u ")")
    as Hstep.
  { intros results processed Hx. unfold feed_entry_step.
    rewrite Hid, Ht. simpl. rewrite bool_decide_eq_false_2 by done.
    rewrite Hm. simpl. eexists. split; [reflexivity|]. simpl.
    split; [done|]. unfold translated_text.
    rewrite bool_decide_eq_true_2 by done. rewrite Htr.
    apply placeholder_strip. }
  split; [done|].
  intros before after processed Hparse Hx Hbefore.
  unfold fetch_feed. rewrite Hparse, foldl_app.
  destruct (adapter_loop_spec (feed_entry_step feed) entry_passes
              (feed_entry_step_cases feed) before [] processed)
    as (new1 & P1 & -> & _ & _ & Hiff1).
  assert (x ∉ P1) as Hx1.
  { rewrite Hiff1. intros [?|(e & He & Hpass & _)]; [done|].
    by apply (Hbefore e). }
  cbn [foldl app].
  destruct (Hstep new1 P1 Hx1) as (r & -> & Hr & Htrans).
  destruct (adapter_loop_spec (feed_entry_step feed) entry_passes
              (feed_entry_step_cases feed) after (new1 ++ [r])
              ({[x]} ∪ P1))
    as (new2 & P2 & -> & -> & _ & _).
  eexists _, _, r. split; [reflexivity|]. split_and!; try done.
  - set_solver.
  - set_solver.
Qed.

(** C2. In the fetch phase of a run an identifier is in the set afterwards
    exactly when it was there before or some entry of a source bears it and
    passes that adapter's keyword filter; an identifier all of whose
    entries fail the filter is not added.  The identifiers added are
    exactly those of the emitted records, none of which was in the set
    before; and the set so obtained is what the run writes to the file. *)
Theorem C2_store_additions (st : State) :
  exists E1 P1 E2 P2,
    (forall st0, exists st1 st2,
        fetch_all_feeds (FEEDS cfg) [] (stored_set (file st)) st0
        = (inr (E1, P1), st1)
        /\ fetch_moleg_public_data P1 st1 = (inr (E2, P2), st2))
    /\ (forall x, x ∈ P2 <->
          x ∈ stored_set (file st)
          \/ feeds_offer (FEEDS cfg) x \/ moleg_offers x)
    /\ P2 = stored_set (file st) ∪ ids (E1 ++ E2)
    /\ (forall r, r ∈ E1 ++ E2 -> a_id r ∉ stored_set (file st))
    /\ file (run_once st).2 = Some (file_text P2).
Proof.
  destruct (run_once_trace st)
    as (E1 & P1 & msgs1 & E2 & P2 & msgs2 & out & tail
        & Hfeeds & Hmoleg & Hrun & _).
  destruct (fetch_all_feeds_spec (FEEDS cfg) [] (stored_set (file st)))
    as (E1' & P1' & msgs1' & Hfeeds' & HP1 & Hnew1 & Hiff1).
  pose proof (Hfeeds st) as H1. rewrite Hfeeds' in H1.
  injection H1 as <- <- _.
  destruct (fetch_moleg_public_data_spec P1')
    as (E2' & P2' & msgs2' & Hmoleg' & HP2 & Hnew2 & Hiff2).
  pose proof (Hmoleg st) as H2. rewrite Hmoleg' in H2.
  injection H2 as <- <- _.
  exists E1', P1', E2', P2'. split_and!.
  - intros st0. eexists _, _. by rewrite Hfeeds', Hmoleg'.
  - intros x. rewrite Hiff2, Hiff1. tauto.
  - unfold ids in *. rewrite fmap_app. set_solver.
  - intros r [Hr|Hr]%elem_of_app; [auto|].
    specialize (Hnew2 r Hr). set_solver.
  - by rewrite Hrun.
Qed.

(** C5. Loading when the backing file is missing gives the empty set and
    raises nothing.  Saving writes every identifier of the set once,
    followed by a line feed, in strictly ascending order.  Loading any
    file, saving what was loaded and loading again gives the set that was
    loaded first. *)
Theorem C5_store_round_trip :
  (forall tr, load_processed {| file := None; trace := tr |}
              = (inr ∅, {| file := None; trace := tr |}))
  /\ (forall processed st,
        exists items,
          save_processed processed st
          = (inr tt,
             {| file :=
                  Some (concat ((fun item => item ++ [10%N]) <$> items));
                trace :=
                  trace st
                  ++ [FileWritten
                        (concat ((fun item => item ++ [10%N])
                                   <$> items))] |})
          /\ items ≡ₚ elements processed
          /\ StronglySorted (fun a b => str_ltb a b = true) items)
  /\ (forall st,
        exists loaded st',
          load_processed st = (inr loaded, st)
          /\ save_processed loaded st = (inr tt, st')
          /\ load_processed st' = (inr loaded, st')).
Proof.
  split_and!.
  - intros tr. by rewrite load_processed_eq.
  - intros processed st. exists (sorted processed).
    split_and!; [done | apply sorted_perm | apply sorted_ascending].
  - intros st. eexists (stored_set (file st)), _.
    split_and!; [apply load_processed_eq | reflexivity |].
    rewrite load_processed_eq. f_equal. f_equal.
    cbn [file saved_state stored_set]. unfold file_text.
    rewrite text_lines_written; [apply list_to_set_sorted|].
    apply Forall_forall. intros x Hx.
    rewrite sorted_perm, elem_of_elements in Hx.
    unfold stored_set in Hx. destruct (file st) as [text|].
    + apply (loaded_storable text). by apply elem_of_list_to_set in Hx.
    + by apply not_elem_of_empty in Hx.
Qed.

(** C9. The digest a run sends is rendered from the matched records
    sorted by their publication string, greatest first under the
    lexicographic order on code points: the sorted list is a
    rearrangement of the records, every record stands before those with a
    smaller or equal publication string, and records without a publication
    string come after all that have one.  The body of the mail is the
    header, the ruler and then the blocks of the records of that list, one
    after the other in the order of the list and numbered from one, all
    lines joined by line feeds; so of two records the block of the one
    with the greater publication string is rendered first. *)
Theorem C9_digest_order (st : State) :
  exists E1 P1 E2 P2 evs out tail,
    (forall st0, exists st1 st2,
        fetch_all_feeds (FEEDS cfg) [] (stored_set (file st)) st0
        = (inr (E1, P1), st1)
        /\ fetch_moleg_public_data P1 st1 = (inr (E2, P2), st2))
    /\ run_once st = (out, add_trace (saved_state st evs P2) tail)
    /\ (forall req, SmtpSend req ∈ tail ->
          smtp_body req = build_digest (sort_by_published (E1 ++ E2)))
    /\ sort_by_published (E1 ++ E2) ≡ₚ E1 ++ E2
    /\ StronglySorted published_desc (sort_by_published (E1 ++ E2))
    /\ (forall i j x y,
          sort_by_published (E1 ++ E2) !! i = Some x ->
          sort_by_published (E1 ++ E2) !! j = Some y ->
          a_published x = [] -> a_published y <> [] -> j < i)
    /\ digest_lines (sort_by_published (E1 ++ E2))
       = [u "규제 준수 뉴스 요약 – " ++ now w ++ u " (Asia/Seoul 기준)";
          replicate 60 8722%N]
         ++ concat (imap (fun i item => digest_block (S i) item)
                      (sort_by_published (E1 ++ E2)))
    /\ (forall req, SmtpSend req ∈ tail ->
          smtp_body req
          = join [10%N]
              ([u "규제 준수 뉴스 요약 – " ++ now w ++ u " (Asia/Seoul 기준)";
                replicate 60 8722%N]
               ++ concat (imap (fun i item => digest_block (S i) item)
                            (sort_by_published (E1 ++ E2)))))
    /\ (forall req i j x y,
          SmtpSend req ∈ tail ->
          sort_by_published (E1 ++ E2) !! i = Some x ->
          sort_by_published (E1 ++ E2) !! j = Some y ->
          i < j ->
          published_desc x y
          /\ exists before between after,
               smtp_body req
               = join [10%N]
                   (before ++ digest_block (S i) x ++ between
                    ++ digest_block (S j) y ++ after)).
Proof.
  destruct (run_once_summary st)
    as (E1 & P1 & msgs1 & E2 & P2 & msgs2 & out & tail
        & Hfeeds & Hmoleg & Hrun & _ & Hsend & _ & _).
  assert (StronglySorted published_desc (sort_by_published (E1 ++ E2)))
    as Hsorted.
  { apply (stable_sort_sorted
             (fun x y => str_leb (a_published y) (a_published x))).
    - intros x y. apply str_leb_total.
    - intros x y z Hxy Hyz. by apply (str_leb_trans _ (a_published y)). }
  assert (forall entries,
            build_digest entries
            = join [10%N]
                ([u "규제 준수 뉴스 요약 – " ++ now w
                  ++ u " (Asia/Seoul 기준)";
                  replicate 60 8722%N]
                 ++ concat (imap (fun i item => digest_block (S i) item)
                              entries))) as Hbody.
  { intros entries. unfold build_digest, digest_lines.
    by rewrite digest_blocks_imap. }
  exists E1, P1, E2, P2, (Printed <$> (msgs1 ++ msgs2)), out, tail.
  split_and!.
  - intros st0. eexists _, _. by rewrite Hfeeds, Hmoleg.
  - done.
  - intros req Hreq. by destruct (Hsend req Hreq) as (_ & _ & ?).
  - apply stable_sort_perm.
  - done.
  - intros i j x y Hx Hy Hempty Hnonempty.
    destruct (Nat.lt_trichotomy i j) as [Hlt|[->|Hgt]]; [|congruence|done].
    pose proof (StronglySorted_lookup _ _ _ _ _ _ Hsorted Hx Hy Hlt) as H.
    unfold published_desc in H. rewrite Hempty in H.
    by apply str_leb_nil_r in H.
  - unfold digest_lines. by rewrite digest_blocks_imap.
  - intros req Hreq. destruct (Hsend req Hreq) as (_ & _ & ->).
    apply Hbody.
  - intros req i j x y Hreq Hx Hy Hlt.
    split; [by apply (StronglySorted_lookup _ _ _ _ _ _ Hsorted Hx Hy)|].
    destruct (Hsend req Hreq) as (_ & _ & ->).
    destruct (concat_imap_lookup_lt
                (fun i item => digest_block (S i) item) _ i j x y Hx Hy Hlt)
      as (before & between & after & Heq).
    eexists (_ :: _ :: before), between, after.
    rewrite Hbody, Heq. reflexivity.
Qed.

(** C4, as the code has it.  The feed adapter matches a text exactly when
    the lower-cased form of some keyword of either list occurs in the
    lower-cased text; so, when lower-casing goes character by character,
    a keyword written in any letter case anywhere in the text is matched.
    The scrape adapter matches a title exactly when some keyword of the
    Korean list occurs in it as written: the other list is not consulted
    and nothing is lower-cased. *)
Theorem C4_keyword_matching (text : pystr) :
  (article_matches text = true <->
   exists kw, kw ∈ KEYWORDS_KO cfg ++ KEYWORDS_EN cfg
              /\ Substring (lower py kw) (lower py text))
  /\ ((forall a b, lower py (a ++ b) = lower py a ++ lower py b) ->
      forall kw occurrence before after,
        kw ∈ KEYWORDS_KO cfg ++ KEYWORDS_EN cfg ->
        lower py occurrence = lower py kw ->
        text = before ++ occurrence ++ after ->
        article_matches text = true)
  /\ (moleg_matches text = true <->
      exists kw, kw ∈ KEYWORDS_KO cfg /\ Substring kw text).
Proof.
  assert (article_matches text = true <->
          exists kw, kw ∈ KEYWORDS_KO cfg ++ KEYWORDS_EN cfg
                     /\ Substring (lower py kw) (lower py text)) as Hfeed.
  { unfold article_matches. cbv zeta.
    destruct (existsb _ (KEYWORDS_KO cfg)) eqn:Hko.
    - split; [intros _|done].
      apply (existsb_contains _ (lower py)) in Hko as (kw & Hin & Hsub).
      exists kw. split; [|done]. apply elem_of_app. by left.
    - destruct (existsb _ (KEYWORDS_EN cfg)) eqn:Hen.
      + split; [intros _|done].
        apply (existsb_contains _ (lower py)) in Hen as (kw & Hin & Hsub).
        exists kw. split; [|done]. apply elem_of_app. by right.
      + split; [done|]. intros (kw & [Hin|Hin]%elem_of_app & Hsub).
        * assert (existsb (fun kw => contains (lower py kw)
                                       (lower py text))
                    (KEYWORDS_KO cfg) = true) as H
            by (apply (existsb_contains _ (lower py)); eauto).
          congruence.
        * assert (existsb (fun kw => contains (lower py kw)
                                       (lower py text))
                    (KEYWORDS_EN cfg) = true) as H
            by (apply (existsb_contains _ (lower py)); eauto).
          congruence. }
  split_and!.
  - done.
  - intros Hhom kw occurrence before after Hin Hocc ->.
    apply Hfeed. exists kw. split; [done|].
    exists (lower py before), (lower py after).
    by rewrite !Hhom, Hocc.
  - unfold moleg_matches. apply (existsb_contains text id).
Qed.

(* ===================================================================== *)
(** * Further properties of the adapters *)
(* ===================================================================== *)

(** The loop of an adapter again, now keeping track of where each record
    comes from. *)
Section AdapterRecords.
Context {T : Type}.
Variable step : list Article * gset pystr -> T -> list Article * gset pystr.
Variable made_from : T -> Article -> Prop.
Hypothesis step_record : forall results processed item,
  (exists r, (a_id r ∉ processed) /\ made_from item r
     /\ step (results, processed) item
        = (results ++ [r], {[a_id r]} ∪ processed))
  \/ step (results, processed) item = (results, processed).

Lemma adapter_loop_records (items : list T) (results : list Article)
    (processed : gset pystr) :
  exists new processed',
    foldl step (results, processed) items = (results ++ new, processed')
    /\ processed' = processed ∪ ids new
    /\ NoDup (a_id <$> new)
    /\ (forall r, r ∈ new ->
          a_id r ∉ processed
          /\ exists item, item ∈ items /\ made_from item r).
Proof.
  revert results processed.
  induction items as [|item items IH]; intros results processed.
  - exists [], processed. cbn [foldl]. rewrite app_nil_r.
    split_and!; [done | unfold ids; set_solver | constructor |].
    by intros r ?%elem_of_nil.
  - cbn [foldl].
    destruct (step_record results processed item)
      as [(r & Hr & Hmade & ->) | ->].
    + destruct (IH (results ++ [r]) ({[a_id r]} ∪ processed))
        as (new & P' & -> & -> & Hnd & Hnew).
      exists (r :: new), ({[a_id r]} ∪ processed ∪ ids new). split_and!.
      * by rewrite <- app_assoc.
      * unfold ids. rewrite fmap_cons. set_solver.
      * rewrite fmap_cons. apply NoDup_cons. split; [|done].
        intros (r' & Heq & Hin)%list_elem_of_fmap.
        destruct (Hnew r' Hin) as [Hr' _]. set_solver.
      * intros r' [->|Hin]%elem_of_cons.
        -- split; [done|]. exists item. split; [left | done].
        -- destruct (Hnew r' Hin) as [Hr' (it & Hit & Hm)].
           split; [set_solver|]. exists it. split; [by right | done].
    + destruct (IH results processed) as (new & P' & -> & -> & Hnd & Hnew).
      exists new, (processed ∪ ids new). split_and!; try done.
      intros r Hin. destruct (Hnew r Hin) as [Hr (it & Hit & Hm)].
      split; [done|]. exists it. split; [by right | done].
Qed.
End AdapterRecords.

Lemma feed_entry_step_record (feed : Feed) (results : list Article)
    (processed : gset pystr) (entry : Entry) :
  (exists r, (a_id r ∉ processed) /\ feed_record feed entry r
     /\ feed_entry_step feed (results, processed) entry
        = (results ++ [r], {[a_id r]} ∪ processed))
  \/ feed_entry_step feed (results, processed) entry = (results, processed).
Proof.
  unfold feed_entry_step, feed_record.
  destruct (entry_identifier entry) as [x|] eqn:Hid; [|by right].
  destruct (truthy x) eqn:Ht; cbn [negb orb]; [|by right].
  case_bool_decide as Hin; [by right|].
  destruct (article_matches (entry_combined entry)) eqn:Hm; cbn [negb];
    [|by right].
  left.
  match goal with |- context [results ++ [?a]] => exists a end.
  cbn [a_id a_source a_title a_summary a_translation a_link a_published].
  by split_and!.
Qed.

Lemma moleg_step_record (results : list Article) (processed : gset pystr)
    (anchor : pystr * option pystr) :
  (exists r, (a_id r ∉ processed) /\ moleg_record anchor r
     /\ moleg_step (results, processed) anchor
        = (results ++ [r], {[a_id r]} ∪ processed))
  \/ moleg_step (results, processed) anchor = (results, processed).
Proof.
  unfold moleg_step, moleg_record. destruct anchor as [title [href|]];
    [|by right].
  destruct (truthy href) eqn:Ht; cbn [negb]; [|by right].
  case_bool_decide as Hin; [by right|].
  destruct (moleg_matches title) eqn:Hm; cbn [negb]; [|by right].
  left.
  match goal with |- context [results ++ [?a]] => exists a end.
  cbn [a_id a_source a_title a_summary a_translation a_link a_published].
  split_and!; [done| |done]. exists href. by split_and!.
Qed.

Lemma fetch_feed_records (feed : Feed) (entries : list Entry)
    (processed : gset pystr) :
  feedparser_parse w (f_url feed) = inr entries ->
  exists results processed',
    fetch_feed feed processed = (inr results, processed')
    /\ processed' = processed ∪ ids results
    /\ NoDup (a_id <$> results)
    /\ (forall r, r ∈ results ->
          a_id r ∉ processed
          /\ exists entry, entry ∈ entries /\ feed_record feed entry r).
Proof.
  intros Hparse. unfold fetch_feed. rewrite Hparse.
  destruct (adapter_loop_records (feed_entry_step feed) (feed_record feed)
              (feed_entry_step_record feed) entries [] processed)
    as (new & P' & -> & HP & Hnd & Hnew).
  by exists new, P'.
Qed.

Lemma fetch_all_feeds_records (feeds : list Feed)
    (all_entries : list Article) (processed : gset pystr) :
  exists new processed' msgs,
    (forall st, fetch_all_feeds feeds all_entries processed st
                = (inr (all_entries ++ new, processed'),
                   add_trace st (Printed <$> msgs)))
    /\ processed' = processed ∪ ids new
    /\ NoDup (a_id <$> new)
    /\ (forall r, r ∈ new ->
          a_id r ∉ processed
          /\ exists feed entries entry,
               feed ∈ feeds /\ feedparser_parse w (f_url feed) = inr entries
               /\ entry ∈ entries /\ feed_record feed entry r).
Proof.
  revert all_entries processed.
  induction feeds as [|feed feeds IH]; intros all_entries processed.
  - exists [], processed, []. split_and!.
    + intros [fl tr]. cbn [fetch_all_feeds]. unfold ret, add_trace.
      cbn [file trace fmap list_fmap]. by rewrite !app_nil_r.
    + unfold ids. set_solver.
    + constructor.
    + by intros r ?%elem_of_nil.
  - cbn [fetch_all_feeds].
    destruct (feedparser_parse w (f_url feed)) as [exc|entries] eqn:Hparse.
    + unfold fetch_feed. rewrite Hparse.
      destruct (IH all_entries processed)
        as (new & P' & msgs & Hrun & HP & Hnd & Hnew).
      eexists new, P', (_ :: msgs). split_and!; try done.
      * intros [fl tr]. unfold mbind, M_bind, bind, print, emit.
        cbn [file trace]. rewrite Hrun. unfold add_trace.
        cbn [file trace fmap list_fmap]. by rewrite <- app_assoc.
      * intros r Hr. destruct (Hnew r Hr) as [? (f & es & e & Hf & Hrest)].
        split; [done|]. exists f, es, e. split; [by right | done].
    + destruct (fetch_feed_records feed entries processed Hparse)
        as (new1 & P1 & -> & HP1 & Hnd1 & Hnew1).
      destruct (IH (all_entries ++ new1) P1)
        as (new & P' & msgs & Hrun & HP & Hnd & Hnew).
      exists (new1 ++ new), P', msgs. split_and!.
      * intros st. by rewrite Hrun, app_assoc.
      * unfold ids in *. rewrite fmap_app. set_solver.
      * rewrite fmap_app. apply NoDup_app. split_and!; [done| |done].
        intros x (r1 & -> & Hr1)%list_elem_of_fmap
          (r2 & Heq & Hr2)%list_elem_of_fmap.
        destruct (Hnew r2 Hr2) as [Hnot _]. apply Hnot. rewrite HP1.
        apply elem_of_union_r. unfold ids. apply elem_of_list_to_set.
        rewrite <- Heq. by apply list_elem_of_fmap_2.
      * intros r [Hr|Hr]%elem_of_app.
        -- destruct (Hnew1 r Hr) as [? (e & He & Hrec)].
           split; [done|]. exists feed, entries, e.
           split; [left | done].
        -- destruct (Hnew r Hr) as [Hnot (f & es & e & Hf & Hrest)].
           split; [set_solver|]. exists f, es, e. split; [by right|done].
Qed.

Lemma fetch_moleg_public_data_records (processed : gset pystr) :
  exists new processed' msgs,
    (forall st, fetch_moleg_public_data processed st
                = (inr (new, processed'), add_trace st (Printed <$> msgs)))
    /\ processed' = processed ∪ ids new
    /\ NoDup (a_id <$> new)
    /\ (forall r, r ∈ new ->
          a_id r ∉ processed
          /\ exists anchors anchor,
               moleg_anchors w = inr anchors /\ anchor ∈ anchors
               /\ moleg_record anchor r).
Proof.
  unfold fetch_moleg_public_data.
  destruct (moleg_anchors w) as [exc|anchors] eqn:Hpage.
  - eexists [], processed, [_].
    split_and!; [by intros [fl tr] | unfold ids; set_solver | constructor|].
    by intros r ?%elem_of_nil.
  - destruct (adapter_loop_records moleg_step moleg_record
                moleg_step_record anchors [] processed)
      as (new & P' & Hrun & HP & Hnd & Hnew).
    exists new, P', []. split_and!; try done.
    + intros [fl tr]. rewrite Hrun. unfold ret, add_trace.
      cbn [file trace fmap list_fmap]. by rewrite app_nil_r.
    + intros r Hr. destruct (Hnew r Hr) as [? (a & Ha & Hrec)].
      split; [done|]. by exists anchors, a.
Qed.

Lemma absolute_link_nonempty (href : pystr) :
  truthy href = true -> absolute_link href <> [].
Proof.
  unfold absolute_link. destruct href as [|c href]; [done|]. intros _.
  destruct (startswith _ _); [|done].
  intros [_ [=]]%app_eq_nil.
Qed.

(** The fetch phase of a run and what its records are. *)
Lemma run_once_phase (st : State) :
  exists E1 P1 msgs1 E2 P2 msgs2 out tail,
    (forall st0, fetch_all_feeds (FEEDS cfg) [] (stored_set (file st)) st0
                 = (inr (E1, P1), add_trace st0 (Printed <$> msgs1)))
    /\ (forall st0, fetch_moleg_public_data P1 st0
                    = (inr (E2, P2), add_trace st0 (Printed <$> msgs2)))
    /\ run_once st
       = (out, add_trace
                 (saved_state st (Printed <$> (msgs1 ++ msgs2)) P2) tail)
    /\ (forall req, SmtpSend req ∈ tail ->
          smtp_body req = build_digest (sort_by_published (E1 ++ E2)))
    /\ P2 = stored_set (file st) ∪ ids (E1 ++ E2)
    /\ NoDup (a_id <$> (E1 ++ E2))
    /\ (forall r, r ∈ E1 ++ E2 ->
          a_id r ∉ stored_set (file st) /\ a_id r <> []).
Proof.
  destruct (run_once_summary st)
    as (E1 & P1 & msgs1 & E2 & P2 & msgs2 & out & tail
        & Hfeeds & Hmoleg & Hrun & _ & Hsend & _ & _).
  destruct (fetch_all_feeds_records (FEEDS cfg) [] (stored_set (file st)))
    as (E1' & P1' & msgs1' & Hfeeds' & HP1 & Hnd1 & Hnew1).
  pose proof (Hfeeds st) as H1. rewrite Hfeeds' in H1.
  injection H1 as <- <- _.
  destruct (fetch_moleg_public_data_records P1')
    as (E2' & P2' & msgs2' & Hmoleg' & HP2 & Hnd2 & Hnew2).
  pose proof (Hmoleg st) as H2. rewrite Hmoleg' in H2.
  injection H2 as <- <- _.
  exists E1', P1', msgs1, E2', P2', msgs2, out, tail.
  split_and!; [done | done | done | | | |].
  - intros req Hreq. by destruct (Hsend req Hreq) as (_ & _ & ?).
  - unfold ids in *. rewrite fmap_app. set_solver.
  - rewrite fmap_app. apply NoDup_app. split_and!; [done| |done].
    intros x (r1 & -> & Hr1)%list_elem_of_fmap
      (r2 & Heq & Hr2)%list_elem_of_fmap.
    destruct (Hnew2 r2 Hr2) as [Hnot _]. apply Hnot. rewrite HP1.
    apply elem_of_union_r. unfold ids. apply elem_of_list_to_set.
    rewrite <- Heq. by apply list_elem_of_fmap_2.
  - intros r [Hr|Hr]%elem_of_app.
    + destruct (Hnew1 r Hr)
        as [Hnot (f & es & e & _ & _ & _ & _ & Ht & _)].
      split; [done|]. by destruct (a_id r).
    + destruct (Hnew2 r Hr)
        as [Hnot (an & a & _ & _ & href & _ & Ht & _ & Hid & _)].
      split.
      * intros Hin. apply Hnot. rewrite HP1. by apply elem_of_union_l.
      * rewrite Hid. by apply absolute_link_nonempty.
Qed.

(** A second pass over sources whose offers are all in the set finds
    nothing. *)
Lemma no_new_records (offers : pystr -> Prop) (P P' : gset pystr)
    (new : list Article) :
  (forall x, offers x -> x ∈ P) ->
  (forall x, x ∈ P' <-> x ∈ P \/ offers x) ->
  P' = P ∪ ids new ->
  (forall r, r ∈ new -> a_id r ∉ P) ->
  new = [] /\ P' = P.
Proof.
  intros Hoff Hiff HP Hnew.
  assert (new = []) as ->.
  { destruct new as [|r new]; [done|]. exfalso.
    apply (Hnew r); [left|].
    assert (a_id r ∈ P') as [?|?%Hoff]%Hiff; [|done..].
    rewrite HP. unfold ids. rewrite fmap_cons. set_solver. }
  split; [done|]. rewrite HP. unfold ids. set_solver.
Qed.



(** The records of one run bear pairwise distinct identifiers, none of
    them empty and none of them known before the run; so the digest, which
    is rendered from these records sorted, shows no identifier twice. *)
Theorem run_once_distinct_identifiers (st : State) :
  exists E1 P1 E2 P2 evs out tail,
    (forall st0, exists st1 st2,
        fetch_all_feeds (FEEDS cfg) [] (stored_set (file st)) st0
        = (inr (E1, P1), st1)
        /\ fetch_moleg_public_data P1 st1 = (inr (E2, P2), st2))
    /\ run_once st = (out, add_trace (saved_state st evs P2) tail)
    /\ (forall req, SmtpSend req ∈ tail ->
          smtp_body req = build_digest (sort_by_published (E1 ++ E2)))
    /\ NoDup (a_id <$> sort_by_published (E1 ++ E2))
    /\ (forall r, r ∈ sort_by_published (E1 ++ E2) ->
          a_id r <> [] /\ a_id r ∉ stored_set (file st)).
Proof.
  destruct (run_once_phase st)
    as (E1 & P1 & msgs1 & E2 & P2 & msgs2 & out & tail
        & Hfeeds & Hmoleg & Hrun & Hsend & _ & Hnd & Hnew).
  exists E1, P1, E2, P2, (Printed <$> (msgs1 ++ msgs2)), out, tail.
  assert (sort_by_published (E1 ++ E2) ≡ₚ E1 ++ E2) as Hperm
    by apply stable_sort_perm.
  split_and!; [|done|done| |].
  - intros st0. eexists _, _. by rewrite Hfeeds, Hmoleg.
  - by rewrite Hperm.
  - intros r Hr. rewrite Hperm in Hr. by destruct (Hnew r Hr).
Qed.

(** The fetch phase is idempotent on the set: run again from the set it
    returned, over the same sources, it emits no record and leaves the set
    as it is. *)
Theorem fetch_phase_idempotent (processed : gset pystr) :
  exists E1 P1 E2 P2,
    (forall st0, exists st1 st2,
        fetch_all_feeds (FEEDS cfg) [] processed st0 = (inr (E1, P1), st1)
        /\ fetch_moleg_public_data P1 st1 = (inr (E2, P2), st2))
    /\ (forall st0, exists st1 st2,
          fetch_all_feeds (FEEDS cfg) [] P2 st0 = (inr ([], P2), st1)
          /\ fetch_moleg_public_data P2 st1 = (inr ([], P2), st2)).
Proof.
  destruct (fetch_all_feeds_spec (FEEDS cfg) [] processed)
    as (E1 & P1 & msgs1 & Hfeeds & HP1 & _ & Hiff1).
  destruct (fetch_moleg_public_data_spec P1)
    as (E2 & P2 & msgs2 & Hmoleg & HP2 & _ & Hiff2).
  destruct (fetch_all_feeds_spec (FEEDS cfg) [] P2)
    as (E1' & P1' & msgs1' & Hfeeds' & HP1' & Hnew1' & Hiff1').
  assert (forall x, feeds_offer (FEEDS cfg) x -> x ∈ P2) as Hoff1.
  { intros x Hx. apply Hiff2. left. apply Hiff1. by right. }
  destruct (no_new_records _ P2 P1' E1' Hoff1 Hiff1' HP1' Hnew1')
    as [-> ->].
  destruct (fetch_moleg_public_data_spec P2)
    as (E2' & P2' & msgs2' & Hmoleg' & HP2' & Hnew2' & Hiff2').
  assert (forall x, moleg_offers x -> x ∈ P2) as Hoff2.
  { intros x Hx. apply Hiff2. by right. }
  destruct (no_new_records _ P2 P2' E2' Hoff2 Hiff2' HP2' Hnew2')
    as [-> ->].
  exists E1, P1, E2, P2. split.
  - intros st0. eexists _, _. by rewrite Hfeeds, Hmoleg.
  - intros st0. eexists _, _. by rewrite Hfeeds', Hmoleg'.
Qed.

(** Every record the feed adapter emits is built from an entry of the
    parsed feed that has a non-empty identifier, new to the set, and a
    text that matches: the record bears that identifier and the name of
    the feed, its title, summary and translation are stripped of
    surrounding white space, and link and publication string are those of
    the entry, empty when the entry has none. *)
Theorem fetch_feed_record_fields (feed : Feed) (entries : list Entry)
    (processed : gset pystr) :
  feedparser_parse w (f_url feed) = inr entries ->
  exists results processed',
    fetch_feed feed processed = (inr results, processed')
    /\ forall r, r ∈ results ->
         a_id r ∉ processed /\ a_id r ∈ processed'
         /\ strip (a_title r) = a_title r
         /\ strip (a_summary r) = a_summary r
         /\ strip (a_translation r) = a_translation r
         /\ exists entry, entry ∈ entries /\ feed_record feed entry r.
Proof.
  intros Hparse.
  destruct (fetch_feed_records feed entries processed Hparse)
    as (results & P' & Hrun & HP & _ & Hnew).
  exists results, P'. split; [done|]. intros r Hr.
  destruct (Hnew r Hr) as [Hnot (entry & Hentry & Hrec)].
  split_and!; [done | | | | |by exists entry].
  - rewrite HP. apply elem_of_union_r. unfold ids.
    apply elem_of_list_to_set. by apply list_elem_of_fmap_2.
  - destruct Hrec as (_ & _ & _ & _ & -> & _). apply strip_idemp.
  - destruct Hrec as (_ & _ & _ & _ & _ & -> & _). apply strip_idemp.
  - destruct Hrec as (_ & _ & _ & _ & _ & _ & -> & _). apply strip_idemp.
Qed.

(** The scrape adapter never raises.  Every record it emits is built from
    an anchor of the page with a non-empty [href] and a title that holds a
    Korean keyword; identifier and link are the absolute address of the
    anchor; title, summary and translation are the text of the anchor and
    there is no publication string.  The block of such a record in the
    digest therefore has neither a date line nor a translation line. *)
Theorem fetch_moleg_public_data_record_block (processed : gset pystr) :
  exists results processed' msgs,
    (forall st, fetch_moleg_public_data processed st
                = (inr (results, processed'),
                   add_trace st (Printed <$> msgs)))
    /\ forall r, r ∈ results ->
         (exists anchors anchor,
            moleg_anchors w = inr anchors /\ anchor ∈ anchors
            /\ moleg_record anchor r)
         /\ a_link r = a_id r /\ a_id r <> []
         /\ forall idx,
              digest_block idx r
              = [block_heading idx r;
                 u "   원문 요약: " ++ a_title r;
                 u "   링크: " ++ a_id r;
                 []].
Proof.
  destruct (fetch_moleg_public_data_records processed)
    as (results & P' & msgs & Hrun & _ & _ & Hnew).
  exists results, P', msgs. split; [done|]. intros r Hr.
  destruct (Hnew r Hr) as [_ (anchors & anchor & Hpage & Hin & Hrec)].
  pose proof Hrec
    as (href & _ & Ht & _ & Hid & Hlink & _ & Htitle & Hsum & Htr & Hpub).
  pose proof (absolute_link_nonempty href Ht) as Hne.
  split_and!.
  - by exists anchors, anchor.
  - congruence.
  - congruence.
  - intros idx. unfold digest_block, block_heading.
    rewrite Hpub, Hsum, Htr, Hlink, Hid, Htitle.
    rewrite bool_decide_false by (intros H; by apply H).
    rewrite andb_false_r. cbn [truthy].
    destruct (absolute_link href) as [|c l]; [done|]. reflexivity.
Qed.


(** [send_email], once the port is read.  When host, user and password
    are all set and not empty it opens exactly one SMTP session, with the
    value of [EMAIL_TO] cut at its commas as recipients, and returns or
    raises as that session does; this is so whatever [EMAIL_TO] holds.
    Otherwise it raises [RuntimeError] and opens no session. *)
Theorem send_email_outcome (subject body : pystr) (st : State) (port : Z) :
  int_of_str py (default (u "465") (environ w (u "SMTP_PORT"))) = inr port ->
  if opt_truthy (environ w (u "SMTP_HOST"))
     && opt_truthy (environ w (u "SMTP_USER"))
     && opt_truthy (environ w (u "SMTP_PASSWORD"))
  then
    let req :=
      {| smtp_host := default [] (environ w (u "SMTP_HOST"));
         smtp_port := port;
         smtp_user := default [] (environ w (u "SMTP_USER"));
         smtp_pass := default [] (environ w (u "SMTP_PASSWORD"));
         smtp_recipients :=
           split_on 44%N (default [] (environ w (u "EMAIL_TO")));
         smtp_subject := subject;
         smtp_body := body |} in
    send_email subject body st
    = (match smtp_session w req with
       | Some exc => inl exc
       | None => inr tt
       end, add_trace st [SmtpSend req])
  else
    send_email subject body st
    = (inl (RuntimeError
              (u "SMTP credentials or recipient list not configured")),
       st).
Proof.
  intros Hport. unfold send_email, mbind, M_bind, bind, lift.
  rewrite Hport. unfold ret at 1.
  assert (forall s, match split_on 44%N s with
                    | [] => false | _ :: _ => true end = true) as Hsplit.
  { intros [|c s]; [done|]. cbn [split_on].
    destruct (c =? 44)%N; [done|]. by destruct (split_on 44%N s). }
  rewrite Hsplit, andb_true_r.
  destruct (opt_truthy (environ w (u "SMTP_HOST"))
            && opt_truthy (environ w (u "SMTP_USER"))
            && opt_truthy (environ w (u "SMTP_PASSWORD"))); cbn [negb].
  - cbv zeta. unfold emit, add_trace. cbn [file trace].
    by destruct (smtp_session w _).
  - done.
Qed.

(** The port is read before the credentials are looked at: when
    [SMTP_PORT] is not a number, [send_email] raises the exception of
    [int], whatever else is configured, and opens no session. *)
Theorem send_email_malformed_port (subject body : pystr) (st : State)
    (exc : exn) :
  int_of_str py (default (u "465") (environ w (u "SMTP_PORT"))) = inl exc ->
  send_email subject body st = (inl exc, st).
Proof.
  intros Hport. unfold send_email, mbind, M_bind, bind, lift.
  by rewrite Hport.
Qed.

(* ===================================================================== *)
(** * Further properties of the identifier store *)
(* ===================================================================== *)

Lemma universal_newlines_line_end (prev_cr : bool) (a b : pystr) :
  universal_newlines prev_cr (a ++ [10%N] ++ b)
  = universal_newlines prev_cr (a ++ [10%N]) ++ universal_newlines false b.
Proof.
  revert prev_cr. induction a as [|c a IH]; intros prev_cr; simpl.
  - by destruct prev_cr.
  - destruct (c =? 13)%N; [by rewrite IH|].
    destruct ((c =? 10)%N && prev_cr); by rewrite IH.
Qed.

Lemma universal_newlines_ends (prev_cr : bool) (a : pystr) :
  (prev_cr = true /\ universal_newlines prev_cr (a ++ [10%N]) = [])
  \/ exists t, universal_newlines prev_cr (a ++ [10%N]) = t ++ [10%N].
Proof.
  revert prev_cr. induction a as [|c a IH]; intros prev_cr; simpl.
  - destruct prev_cr; [by left | right; by exists []].
  - destruct (c =? 13)%N.
    + right. destruct (IH true) as [[_ ->]|[t ->]];
        [by exists [] | by exists (10%N :: t)].
    + destruct ((c =? 10)%N && prev_cr).
      * destruct (IH false) as [[? _]|[t ->]]; [done|]. right. by exists t.
      * destruct (IH false) as [[? _]|[t ->]]; [done|].
        right. by exists (c :: t).
Qed.

Lemma universal_newlines_plain (x rest : pystr) :
  13%N ∉ x ->
  universal_newlines false (x ++ [10%N] ++ rest)
  = x ++ [10%N] ++ universal_newlines false rest.
Proof.
  induction x as [|c x IH]; simpl; [done|].
  intros [Hc Hx]%not_elem_of_cons.
  destruct (N.eqb_spec c 13) as [->|_]; [done|].
  rewrite andb_false_r. f_equal. auto.
Qed.

Lemma split_lines_line_end (cur a rest : pystr) :
  split_lines cur (a ++ [10%N] ++ rest)
  = split_lines cur (a ++ [10%N]) ++ split_lines [] rest.
Proof.
  revert cur. induction a as [|c a IH]; intros cur; simpl; [done|].
  destruct (c =? 10)%N; by rewrite IH.
Qed.

(** A line written for an identifier without line breaks is a line of the
    file when it is read, whatever the other identifiers are. *)
Lemma text_lines_item (l1 l2 : list pystr) (x : pystr) :
  10%N ∉ x -> 13%N ∉ x ->
  x ++ [10%N]
  ∈ text_lines (concat ((fun item => item ++ [10%N]) <$> l1 ++ x :: l2)).
Proof.
  intros H10 H13. unfold text_lines.
  rewrite fmap_app, concat_app, fmap_cons. cbn [concat].
  set (rest := concat ((fun item => item ++ [10%N]) <$> l2)).
  assert (x ++ [10%N]
          ∈ split_lines [] (universal_newlines false
                              ((x ++ [10%N]) ++ rest))) as Hhere.
  { rewrite <- app_assoc, universal_newlines_plain by done.
    rewrite split_lines_line by done. left. }
  destruct l1 as [|y l1 _] using rev_ind; [done|].
  rewrite fmap_app, concat_app. cbn [fmap list_fmap concat].
  rewrite app_nil_r, <- !app_assoc.
  rewrite (app_assoc (concat _) y), universal_newlines_line_end.
  destruct (universal_newlines_ends false
              (concat ((fun item => item ++ [10%N]) <$> l1) ++ y))
    as [[? _]|[t Ht]]; [done|].
  rewrite Ht, <- app_assoc, split_lines_line_end.
  apply elem_of_app. right.
  by rewrite <- app_assoc in Hhere.
Qed.

(** An identifier of the saved set that a line can hold is read back. *)
Lemma saved_loaded (processed : gset pystr) (x : pystr) :
  x ∈ processed -> storable x ->
  x ∈ stored_set (Some (file_text processed)).
Proof.
  intros Hx (Hs & H10 & H13). unfold stored_set, file_text.
  apply elem_of_list_to_set.
  assert (x ∈ sorted processed) as (l1 & l2 & Heq)%list_elem_of_split.
  { rewrite sorted_perm. by apply elem_of_elements. }
  rewrite Heq. apply list_elem_of_fmap. exists (x ++ [10%N]).
  split; [by rewrite strip_app_space|]. by apply text_lines_item.
Qed.

Lemma stored_set_storable (f : option pystr) (x : pystr) :
  x ∈ stored_set f -> storable x.
Proof.
  destruct f as [text|]; cbn [stored_set].
  - intros Hx%elem_of_list_to_set. by apply (loaded_storable text).
  - by intros ?%not_elem_of_empty.
Qed.

(** [load_processed] changes nothing, and every identifier it returns is
    free of line breaks and of surrounding white space, whatever the file
    holds. *)
Theorem load_processed_storable (st st' : State) (loaded : gset pystr)
    (x : pystr) :
  load_processed st = (inr loaded, st') -> x ∈ loaded ->
  st' = st /\ strip x = x /\ 10%N ∉ x /\ 13%N ∉ x.
Proof.
  rewrite load_processed_eq. intros [= <- <-] Hx.
  split; [done|]. by apply (stored_set_storable (file st)).
Qed.

(** Saving a set and loading the file again returns every identifier of
    the set that has no line break inside and no white space around,
    whatever else the set holds; when all its identifiers are such, the
    set itself is returned. *)
Theorem save_processed_then_load (processed : gset pystr) (st : State) :
  exists st' loaded,
    save_processed processed st = (inr tt, st')
    /\ load_processed st' = (inr loaded, st')
    /\ (forall x, x ∈ processed -> storable x -> x ∈ loaded)
    /\ ((forall x, x ∈ processed -> storable x) -> loaded = processed).
Proof.
  exists (saved_state st [] processed),
    (stored_set (Some (file_text processed))).
  split_and!.
  - apply save_processed_eq.
  - apply load_processed_eq.
  - apply saved_loaded.
  - intros Hall. cbn [stored_set]. unfold file_text.
    rewrite text_lines_written; [apply list_to_set_sorted|].
    apply Forall_forall. intros x Hx. apply Hall.
    rewrite sorted_perm in Hx. by apply elem_of_elements.
Qed.

(** A run forgets nothing: every identifier the file held before the run
    is read from the file the run leaves, and so is the identifier of
    every record of the run that has no line break inside and no white
    space around. *)
Theorem run_once_keeps_store (st : State) :
  exists E1 P1 E2 P2,
    (forall st0, exists st1 st2,
        fetch_all_feeds (FEEDS cfg) [] (stored_set (file st)) st0
        = (inr (E1, P1), st1)
        /\ fetch_moleg_public_data P1 st1 = (inr (E2, P2), st2))
    /\ stored_set (file st) ⊆ stored_set (file (run_once st).2)
    /\ (forall r, r ∈ E1 ++ E2 -> storable (a_id r) ->
          a_id r ∈ stored_set (file (run_once st).2)).
Proof.
  destruct (run_once_phase st)
    as (E1 & P1 & msgs1 & E2 & P2 & msgs2 & out & tail
        & Hfeeds & Hmoleg & Hrun & _ & HP2 & _ & _).
  exists E1, P1, E2, P2. rewrite Hrun. cbn [snd add_trace saved_state file].
  split_and!.
  - intros st0. eexists _, _. by rewrite Hfeeds, Hmoleg.
  - intros x Hx. apply saved_loaded.
    + rewrite HP2. by apply elem_of_union_l.
    + by apply (stored_set_storable (file st)).
  - intros r Hr Hs. apply saved_loaded; [|done].
    rewrite HP2. apply elem_of_union_r. unfold ids.
    apply elem_of_list_to_set. by apply list_elem_of_fmap_2.
Qed.

(** An identifier with white space around it or a line break inside is
    never recognised: whatever the file holds, in particular after any
    number of earlier runs, an entry of a configured feed that bears such
    an identifier and matches is emitted by the run. *)
Theorem unstorable_identifier_reported_again (st : State) (feed : Feed)
    (entries : list Entry) (entry : Entry) (x : pystr) :
  feed ∈ FEEDS cfg ->
  feedparser_parse w (f_url feed) = inr entries ->
  entry ∈ entries ->
  entry_passes entry x ->
  ~ storable x ->
  exists E1 P1,
    (forall st0, exists st1,
        fetch_all_feeds (FEEDS cfg) [] (stored_set (file st)) st0
        = (inr (E1, P1), st1))
    /\ exists r, r ∈ E1 /\ a_id r = x.
Proof.
  intros Hfeed Hparse Hentry Hpass Hx.
  destruct (fetch_all_feeds_spec (FEEDS cfg) [] (stored_set (file st)))
    as (E1 & P1 & msgs1 & Hfeeds & HP1 & _ & Hiff).
  exists E1, P1. split.
  - intros st0. eexists. apply Hfeeds.
  - assert (x ∈ P1) as Hin.
    { apply Hiff. right. by exists feed, entries, entry. }
    rewrite HP1 in Hin. apply elem_of_union in Hin as [Hin|Hin].
    + by apply stored_set_storable in Hin.
    + unfold ids in Hin.
      apply elem_of_list_to_set, list_elem_of_fmap in Hin
        as (r & -> & Hr).
      by exists r.
Qed.

(* ===================================================================== *)
(** * Further properties of the digest and of the keyword matcher *)
(* ===================================================================== *)

Lemma insert_sorted_published (d : pystr) (x : Article)
    (l : list Article) :
  filter (fun r => a_published r = d)
    (insert_sorted (fun x y => str_leb (a_published y) (a_published x)) x l)
  = filter (fun r => a_published r = d) (x :: l).
Proof.
  induction l as [|y l IH]; [done|]. cbn [insert_sorted].
  destruct (str_leb (a_published y) (a_published x)) eqn:Hle; [done|].
  rewrite filter_cons, IH, !filter_cons.
  destruct (decide (a_published y = d)) as [Hy|Hy];
    destruct (decide (a_published x = d)) as [Hx|Hx]; try done.
  by rewrite Hy, Hx, str_leb_refl in Hle.
Qed.

(** The sort of the digest is stable although it is descending: records
    with the same publication string stand in the digest in the order in
    which they were fetched.  So do, at its end, the records that have
    no publication string. *)
Theorem sort_by_published_stable (entries : list Article) (d : pystr) :
  filter (fun r => a_published r = d) (sort_by_published entries)
  = filter (fun r => a_published r = d) entries.
Proof.
  unfold sort_by_published.
  induction entries as [|x entries IH]; [done|]. cbn [stable_sort].
  by rewrite insert_sorted_published, !filter_cons, IH.
Qed.

(** How a run ends.  When it returns, the last thing it prints is the
    report: that nothing matched, or the number of records of the digest,
    which is the number of records fetched.  It raises only when there
    are records and [send_email] raises, with that exception, and then it
    prints no report. *)
Theorem run_once_report (st : State) :
  exists E1 P1 E2 P2 evs out tail,
    (forall st0, exists st1 st2,
        fetch_all_feeds (FEEDS cfg) [] (stored_set (file st)) st0
        = (inr (E1, P1), st1)
        /\ fetch_moleg_public_data P1 st1 = (inr (E2, P2), st2))
    /\ run_once st = (out, add_trace (saved_state st evs P2) tail)
    /\ (out = inr tt ->
        last tail
        = Some (Printed
                  match E1 ++ E2 with
                  | [] => u "No new articles matched the keywords."
                  | _ :: _ =>
                      u "Sent digest with "
                      ++ str_of_nat (length (E1 ++ E2)) ++ u " articles."
                  end))
    /\ (forall exc, out = inl exc ->
          E1 ++ E2 <> []
          /\ (send_email digest_subject
                (build_digest (sort_by_published (E1 ++ E2)))
                (saved_state st evs P2)).1 = inl exc
          /\ forall msg, Printed msg ∉ tail).
Proof.
  destruct (run_once_spec st)
    as (E1 & P1 & msgs1 & E2 & P2 & msgs2 & Hfeeds & Hmoleg & Hrun).
  exists E1, P1, E2, P2, (Printed <$> (msgs1 ++ msgs2)).
  set (saved := saved_state st (Printed <$> (msgs1 ++ msgs2)) P2) in *.
  assert (length (sort_by_published (E1 ++ E2)) = length (E1 ++ E2))
    as Hlen by apply Permutation_length, stable_sort_perm.
  rewrite Hlen in Hrun.
  assert (forall st0, exists st1 st2,
            fetch_all_feeds (FEEDS cfg) [] (stored_set (file st)) st0
            = (inr (E1, P1), st1)
            /\ fetch_moleg_public_data P1 st1 = (inr (E2, P2), st2))
    as Hfetch.
  { intros st0. eexists _, _. by rewrite Hfeeds, Hmoleg. }
  destruct (E1 ++ E2) as [|r E] eqn:HE.
  - eexists (inr tt), [_]. split_and!; [done | | | done].
    + rewrite Hrun. reflexivity.
    + reflexivity.
  - destruct (send_email_effect digest_subject
                (build_digest (sort_by_published (r :: E))) saved)
      as (out' & sent & Hsend & Hsent).
    cbv zeta in Hrun. unfold mbind, M_bind, bind in Hrun.
    rewrite Hsend in Hrun. destruct out' as [exc|[]].
    + exists (inl exc), sent. split_and!; [done | done | done |].
      intros exc' [= <-]. split_and!; [done | by rewrite Hsend |].
      intros msg Hmsg.
      destruct Hsent as [->|(req & -> & _)];
        [by apply elem_of_nil in Hmsg|].
      by apply list_elem_of_singleton in Hmsg.
    + eexists (inr tt), (sent ++ [_]). split_and!; [done | | | done].
      * rewrite Hrun. unfold print, emit, add_trace. cbn [file trace].
        by rewrite <- !app_assoc.
      * intros _. apply last_snoc.
Qed.

Lemma Substring_line_feed (needle a b : pystr) :
  10%N ∉ needle ->
  Substring needle (a ++ [10%N] ++ b)
  <-> Substring needle a \/ Substring needle b.
Proof.
  intros Hn. unfold Substring. split.
  - intros (pre & post & Heq). symmetry in Heq.
    apply app_eq_inv in Heq as [(k & Hpre & Hrest)|(k & Ha & Hrest)].
    + destruct k as [|c k].
      * cbn [app] in Hrest. destruct needle as [|c needle].
        -- left. exists a, []. by rewrite app_nil_r.
        -- cbn [app] in Hrest. injection Hrest as <- _.
           exfalso. apply Hn. left.
      * cbn [app] in Hrest. injection Hrest as _ ->.
        right. by exists k, post.
    + left. apply app_eq_inv in Hrest as [(k' & Hk & Hb)|(k' & Hk & Hb)].
      * destruct k' as [|c k'].
        -- rewrite app_nil_r in Hk. subst. exists pre, [].
           by rewrite app_nil_r.
        -- cbn [app] in Hb. injection Hb as <- _. subst needle.
           exfalso. apply Hn. apply elem_of_app. right. left.
      * subst. by exists pre, k'.
  - intros [(pre & post & ->)|(pre & post & ->)].
    + exists pre, (post ++ [10%N] ++ b). by rewrite <- !app_assoc.
    + exists (a ++ [10%N] ++ pre), post. by rewrite <- !app_assoc.
Qed.

Lemma article_matches_iff (text : pystr) :
  article_matches text = true
  <-> exists kw, kw ∈ KEYWORDS_KO cfg ++ KEYWORDS_EN cfg
                 /\ Substring (lower py kw) (lower py text).
Proof.
  unfold article_matches.
  destruct (existsb _ (KEYWORDS_KO cfg)) eqn:Hko.
  - split; [|done]. intros _.
    apply (existsb_contains _ (lower py)) in Hko as (kw & Hin & Hsub).
    exists kw. split; [|done]. apply elem_of_app. by left.
  - destruct (existsb _ (KEYWORDS_EN cfg)) eqn:Hen.
    + split; [|done]. intros _.
      apply (existsb_contains _ (lower py)) in Hen as (kw & Hin & Hsub).
      exists kw. split; [|done]. apply elem_of_app. by right.
    + split; [done|]. intros (kw & [Hin|Hin]%elem_of_app & Hsub).
      * rewrite <- Hko. apply (existsb_contains _ (lower py)). eauto.
      * rewrite <- Hen. apply (existsb_contains _ (lower py)). eauto.
Qed.

(** The feed adapter matches the title and the summary joined by a line
    feed.  When lower-casing goes character by character and leaves the
    line feed alone, and no keyword holds a line feed, this is the same
    as matching the title or matching the summary: no keyword is found
    across the boundary. *)
Theorem article_matches_combined (title summary : pystr) :
  (forall a b, lower py (a ++ b) = lower py a ++ lower py b) ->
  lower py [10%N] = [10%N] ->
  Forall (fun kw => 10%N ∉ lower py kw)
    (KEYWORDS_KO cfg ++ KEYWORDS_EN cfg) ->
  article_matches (title ++ [10%N] ++ summary)
  = article_matches title || article_matches summary.
Proof.
  intros Hhom Hlf Hkw. apply eq_true_iff_eq.
  rewrite orb_true_iff, !article_matches_iff, !Hhom, Hlf.
  rewrite Forall_forall in Hkw. split.
  - intros (kw & Hin & Hsub).
    apply Substring_line_feed in Hsub as [Hsub|Hsub]; [| |by apply Hkw].
    + left. by exists kw.
    + right. by exists kw.
  - intros [(kw & Hin & Hsub)|(kw & Hin & Hsub)]; exists kw;
      (split; [done|]); apply Substring_line_feed; auto.
Qed.

(** The recipients of the mail are the pieces of [EMAIL_TO] between its
    commas, as they stand: there is always at least one piece, no piece
    holds a comma, and the pieces joined by commas give the value back. *)
Theorem split_on_join (c : N) (s : pystr) :
  split_on c s <> []
  /\ (forall p, p ∈ split_on c s -> c ∉ p)
  /\ join [c] (split_on c s) = s.
Proof.
  induction s as [|x s (Hne & Hparts & Hjoin)]; cbn [split_on].
  - split_and!; [done | | done].
    intros p ->%list_elem_of_singleton. apply not_elem_of_nil.
  - destruct (N.eqb_spec x c) as [->|Hx].
    + split_and!; [done | |].
      * intros p [->|Hp]%elem_of_cons; [apply not_elem_of_nil | auto].
      * destruct (split_on c s) as [|h t]; [done|].
        change (join [c] ([] :: h :: t)) with ([] ++ [c] ++ join [c] (h :: t)).
        by rewrite Hjoin.
    + destruct (split_on c s) as [|h t]; [done|]. split_and!; [done | |].
      * intros p [->|Hp]%elem_of_cons.
        -- apply not_elem_of_cons. split; [done|]. apply Hparts. left.
        -- apply Hparts. by right.
      * rewrite <- Hjoin. by destruct t.
Qed.

End Pipeline.

(* ===================================================================== *)
(** * Persistence and delivery *)
(* ===================================================================== *)

(** C3. A run writes the identifier store exactly once, before any SMTP
    session: the trace of a run is the messages of the fetch phase, the one
    write, and a tail without a write.  When no record matched, the tail is
    the report and nothing is sent; when records matched, the tail is what
    [send_email] does from the state in which the store is already
    written.  The file then holds the identifiers of all matched records,
    and it is the same file whatever the mail configuration and the mail
    transport do, so a failed delivery changes nothing of what a later run
    loads. *)
Theorem C3_persist_before_dispatch (py : Runtime) (cfg : Config)
    (w : World) (st : State) :
  exists E1 P1 E2 P2 evs out tail,
    (forall st0, exists st1 st2,
        fetch_all_feeds py cfg w (FEEDS cfg) [] (stored_set (file st)) st0
        = (inr (E1, P1), st1)
        /\ fetch_moleg_public_data cfg w P1 st1 = (inr (E2, P2), st2))
    /\ run_once py cfg w st = (out, add_trace (saved_state st evs P2) tail)
    /\ (forall ev, ev ∈ evs -> exists msg, ev = Printed msg)
    /\ (forall c, FileWritten c ∉ tail)
    /\ (forall r, r ∈ E1 ++ E2 -> a_id r ∈ P2)
    /\ (E1 ++ E2 = [] ->
        out = inr tt
        /\ tail = [Printed (u "No new articles matched the keywords.")])
    /\ (E1 ++ E2 <> [] ->
        exists out' sent,
          send_email py w digest_subject
            (build_digest w (sort_by_published (E1 ++ E2)))
            (saved_state st evs P2)
          = (out', add_trace (saved_state st evs P2) sent)
          /\ ((out' = inr tt /\ out = inr tt
               /\ exists msg, tail = sent ++ [Printed msg])
              \/ (exists exc, out' = inl exc /\ out = inl exc
                              /\ tail = sent)))
    /\ (forall req, SmtpSend req ∈ tail -> E1 ++ E2 <> [])
    /\ (forall env smtp,
          file (run_once py cfg (with_delivery w env smtp) st).2
          = Some (file_text P2)).
Proof.
  destruct (run_once_summary py cfg w st)
    as (E1 & P1 & msgs1 & E2 & P2 & msgs2 & out & tail
        & Hfeeds & Hmoleg & Hrun & Hwrite & Hsend & Hempty & Hsome).
  destruct (fetch_all_feeds_spec py cfg w (FEEDS cfg) []
              (stored_set (file st)))
    as (E1' & P1' & msgs1' & Hfeeds'' & HP1 & _).
  pose proof (Hfeeds st) as H1. rewrite Hfeeds'' in H1.
  injection H1 as <- <- _.
  destruct (fetch_moleg_public_data_spec cfg w P1')
    as (E2' & P2' & msgs2' & Hmoleg'' & HP2 & _).
  pose proof (Hmoleg st) as H2. rewrite Hmoleg'' in H2.
  injection H2 as <- <- _.
  exists E1', P1', E2', P2', (Printed <$> (msgs1 ++ msgs2)), out, tail.
  split_and!.
  - intros st0. eexists _, _. by rewrite Hfeeds, Hmoleg.
  - done.
  - intros ev (msg & -> & _)%list_elem_of_fmap. by exists msg.
  - done.
  - intros r Hr. rewrite HP2, HP1. unfold ids.
    apply elem_of_app in Hr as [Hr|Hr].
    + apply elem_of_union_l, elem_of_union_r, elem_of_list_to_set.
      by apply list_elem_of_fmap_2.
    + apply elem_of_union_r, elem_of_list_to_set.
      by apply list_elem_of_fmap_2.
  - done.
  - done.
  - intros req Hreq. by destruct (Hsend req Hreq) as (? & _).
  - intros env smtp.
    destruct (run_once_trace py cfg (with_delivery w env smtp) st)
      as (F1 & Q1 & ms1 & F2 & Q2 & ms2 & o & tl & Hf & Hmo & Hr & _).
    rewrite Hr. cbn [snd add_trace saved_state file]. do 2 f_equal.
    pose proof (Hf st) as H1.
    change (fetch_all_feeds py cfg (with_delivery w env smtp))
      with (fetch_all_feeds py cfg w) in H1.
    rewrite Hfeeds in H1. injection H1 as <- <- _.
    pose proof (Hmo st) as H2.
    change (fetch_moleg_public_data cfg (with_delivery w env smtp))
      with (fetch_moleg_public_data cfg w) in H2.
    rewrite Hmoleg in H2. by injection H2 as <- <- _.
Qed.

(* ===================================================================== *)
(** * Concrete runs *)
(* ===================================================================== *)

(** C1, at the Korean feed.  [fetch_feed] emits the entry with a translation
    that is the title, a line feed and the summary, not the summary; the
    digest therefore prints a translation line for it. *)
Theorem C1_korean_translation_differs :
  (fetch_feed ascii_runtime source_config sample_world lawtimes ∅).1
  = inr [{| a_id := u "k1";
            a_source := u "법률신문 (LawTimes)";
            a_title := u "상법 개정";
            a_summary := u "본문";
            a_translation := u "상법 개정" ++ [10%N] ++ u "본문";
            a_link := u "https://www.lawtimes.co.kr/k1";
            a_published := [] |}]
  /\ u "상법 개정" ++ [10%N] ++ u "본문" <> u "본문"
  /\ In (u "   한국어 번역: " ++ u "상법 개정" ++ [10%N] ++ u "본문")
       (digest_block 1
          {| a_id := u "k1";
             a_source := u "법률신문 (LawTimes)";
             a_title := u "상법 개정";
             a_summary := u "본문";
             a_translation := u "상법 개정" ++ [10%N] ++ u "본문";
             a_link := u "https://www.lawtimes.co.kr/k1";
             a_published := [] |}).
Proof.
  split_and!.
  - vm_compute. reflexivity.
  - vm_compute. discriminate.
  - vm_compute. tauto.
Qed.

(** C8, when only the recipient list is missing.  [send_email] raises
    nothing: it opens an SMTP session whose only recipient is the empty
    string. *)
Theorem C8_missing_recipients_not_detected :
  environ sample_world (u "EMAIL_TO") = None
  /\ send_email ascii_runtime sample_world (u "subject") (u "body")
       initial_state
     = (inr tt,
        {| file := None;
           trace := [SmtpSend {| smtp_host := u "smtp.example.com";
                                 smtp_port := 465;
                                 smtp_user := u "digest@example.com";
                                 smtp_pass := u "secret";
                                 smtp_recipients := [[]];
                                 smtp_subject := u "subject";
                                 smtp_body := u "body" |}] |}).
Proof. split; vm_compute; reflexivity. Qed.

(** C4 as stated fails at the scrape adapter: a title that holds an English
    keyword, letter for letter, is not matched. *)
Lemma C4_scrape_adapter_counterexample :
  ~ (forall title kw,
       kw ∈ KEYWORDS_KO source_config ++ KEYWORDS_EN source_config ->
       Substring (lower ascii_runtime kw) (lower ascii_runtime title) ->
       moleg_matches source_config title = true).
Proof.
  intros H. specialize (H (u "GDPR update") (u "GDPR")).
  assert (moleg_matches source_config (u "GDPR update") = true) as Hm.
  { apply H.
    - apply list_elem_of_In. vm_compute. tauto.
    - exists [], (u " update"). vm_compute. reflexivity. }
  vm_compute in Hm. discriminate.
Qed.

Lemma C4_keyword_matching_witness :
  article_matches ascii_runtime source_config (u "New gdpr rules") = true.
Proof.
  apply (proj1 (proj2 (C4_keyword_matching ascii_runtime source_config
                         (u "New gdpr rules")))
           (fun a b => map_app lower_cp a b)
           (u "GDPR") (u "gdpr") (u "New ") (u " rules")).
  - apply list_elem_of_In. vm_compute. tauto.
  - vm_compute. reflexivity.
  - vm_compute. reflexivity.
Defined.

Lemma C10_entry_without_identifier_witness :
  (forall acc,
     feed_entry_step ascii_runtime source_config sample_world lexology acc
       blank_entry = acc)
  /\ entry_identifier empty_id_entry = Some (u "guid-7")
  /\ entry_identifier empty_id_guid_entry = Some (u "l").
Proof.
  split_and!.
  - apply (proj1 (C10_entry_without_identifier ascii_runtime source_config
                    sample_world lexology blank_entry)); reflexivity.
  - apply (proj1 (proj2 (C10_entry_without_identifier ascii_runtime
                           source_config sample_world lexology
                           empty_id_entry))); reflexivity.
  - apply (proj2 (proj2 (C10_entry_without_identifier ascii_runtime
                           source_config sample_world lexology
                           empty_id_guid_entry))); reflexivity.
Defined.

Lemma C7_translation_failure_contained_witness :
  exists r,
    feed_entry_step ascii_runtime source_config sample_world
      global_compliance_news ([], ∅) gdpr_entry
    = ([] ++ [r], {[u "abc123"]} ∪ ∅)
    /\ a_id r = u "abc123"
    /\ a_translation r
       = u "(번역 오류: "
         ++ str_exn (CollaboratorError (u "timed out")) ++ u ")".
Proof.
  apply (proj1 (C7_translation_failure_contained ascii_runtime source_config
                  sample_world global_compliance_news gdpr_entry
                  (u "abc123") (CollaboratorError (u "timed out"))
                  ltac:(vm_compute; discriminate)
                  ltac:(repeat split; vm_compute; reflexivity)
                  ltac:(reflexivity))).
  apply not_elem_of_empty.
Defined.


(* ===================================================================== *)
(** * From one run to the next *)
(* ===================================================================== *)

(** Nothing is reported twice across runs: a record of one run whose
    identifier has no line break inside and no white space around is not
    emitted by the run that follows, whatever the sources, the
    configuration and the mail transport are by then and however the
    delivery of the first run ended. *)
Theorem next_run_skips_reported (py py' : Runtime) (cfg cfg' : Config)
    (w w' : World) (st : State) :
  exists E1 P1 E2 P2 E1' P1' E2' P2',
    (forall st0, exists st1 st2,
        fetch_all_feeds py cfg w (FEEDS cfg) [] (stored_set (file st)) st0
        = (inr (E1, P1), st1)
        /\ fetch_moleg_public_data cfg w P1 st1 = (inr (E2, P2), st2))
    /\ (forall st0, exists st1 st2,
          fetch_all_feeds py' cfg' w' (FEEDS cfg') []
            (stored_set (file (run_once py cfg w st).2)) st0
          = (inr (E1', P1'), st1)
          /\ fetch_moleg_public_data cfg' w' P1' st1 = (inr (E2', P2'), st2))
    /\ forall r r',
         r ∈ E1 ++ E2 -> storable (a_id r) -> r' ∈ E1' ++ E2' ->
         a_id r' <> a_id r.
Proof.
  destruct (run_once_phase py cfg w st)
    as (E1 & P1 & msgs1 & E2 & P2 & msgs2 & out & tail
        & Hfeeds & Hmoleg & Hrun & _ & HP2 & _ & _).
  destruct (run_once_phase py' cfg' w' (run_once py cfg w st).2)
    as (E1' & P1' & msgs1' & E2' & P2' & msgs2' & out' & tail'
        & Hfeeds' & Hmoleg' & _ & _ & _ & _ & Hnew').
  exists E1, P1, E2, P2, E1', P1', E2', P2'. split_and!.
  - intros st0. eexists _, _. by rewrite Hfeeds, Hmoleg.
  - intros st0. eexists _, _. by rewrite Hfeeds', Hmoleg'.
  - intros r r' Hr Hs Hr' Heq. destruct (Hnew' r' Hr') as [Hnot _].
    apply Hnot. rewrite Heq, Hrun.
    cbn [snd add_trace saved_state file]. apply saved_loaded; [|done].
    rewrite HP2. apply elem_of_union_r. unfold ids.
    apply elem_of_list_to_set. by apply list_elem_of_fmap_2.
Qed.

(* ===================================================================== *)
(** * The further properties at concrete inputs *)
(* ===================================================================== *)

Lemma fetch_feed_record_fields_witness :
  exists results processed',
    fetch_feed ascii_runtime source_config sample_world lawtimes ∅
    = (inr results, processed')
    /\ forall r, r ∈ results ->
         a_id r ∉ (∅ : gset pystr) /\ a_id r ∈ processed'
         /\ strip (a_title r) = a_title r
         /\ strip (a_summary r) = a_summary r
         /\ strip (a_translation r) = a_translation r
         /\ exists entry,
              entry ∈ [lawtimes_entry]
              /\ feed_record ascii_runtime source_config sample_world
                   lawtimes entry r.
Proof.
  apply (fetch_feed_record_fields ascii_runtime source_config sample_world
           lawtimes [lawtimes_entry] ∅).
  vm_compute. reflexivity.
Defined.


Lemma send_email_outcome_witness :
  if opt_truthy (environ sample_world (u "SMTP_HOST"))
     && opt_truthy (environ sample_world (u "SMTP_USER"))
     && opt_truthy (environ sample_world (u "SMTP_PASSWORD"))
  then
    let req :=
      {| smtp_host := default [] (environ sample_world (u "SMTP_HOST"));
         smtp_port := 465;
         smtp_user := default [] (environ sample_world (u "SMTP_USER"));
         smtp_pass := default [] (environ sample_world (u "SMTP_PASSWORD"));
         smtp_recipients :=
           split_on 44%N (default [] (environ sample_world (u "EMAIL_TO")));
         smtp_subject := u "subject";
         smtp_body := u "body" |} in
    send_email ascii_runtime sample_world (u "subject") (u "body")
      initial_state
    = (match smtp_session sample_world req with
       | Some exc => inl exc
       | None => inr tt
       end, add_trace initial_state [SmtpSend req])
  else
    send_email ascii_runtime sample_world (u "subject") (u "body")
      initial_state
    = (inl (RuntimeError
              (u "SMTP credentials or recipient list not configured")),
       initial_state).
Proof.
  apply (send_email_outcome ascii_runtime sample_world (u "subject")
           (u "body") initial_state 465).
  vm_compute. reflexivity.
Defined.

Lemma send_email_malformed_port_witness :
  send_email ascii_runtime
    (with_delivery sample_world env_with_bad_port (fun _ => None))
    (u "subject") (u "body") initial_state
  = (inl (ValueError (u "invalid literal for int() with base 10")),
     initial_state).
Proof.
  apply (send_email_malformed_port ascii_runtime
           (with_delivery sample_world env_with_bad_port (fun _ => None))).
  vm_compute. reflexivity.
Defined.

Lemma load_processed_storable_witness :
  {| file := Some (u "k1" ++ [13%N; 10%N] ++ u " abc123 " ++ [10%N]);
     trace := [] |}
  = {| file := Some (u "k1" ++ [13%N; 10%N] ++ u " abc123 " ++ [10%N]);
       trace := [] |}
  /\ strip (u "abc123") = u "abc123"
  /\ 10%N ∉ u "abc123" /\ 13%N ∉ u "abc123".
Proof.
  apply (load_processed_storable
           {| file := Some (u "k1" ++ [13%N; 10%N] ++ u " abc123 "
                            ++ [10%N]);
              trace := [] |}
           _
           (stored_set
              (Some (u "k1" ++ [13%N; 10%N] ++ u " abc123 " ++ [10%N])))).
  - reflexivity.
  - vm_compute. reflexivity.
Defined.

Lemma unstorable_identifier_reported_again_witness :
  exists E1 P1,
    (forall st0, exists st1,
        fetch_all_feeds ascii_runtime source_config padded_id_world
          (FEEDS source_config) [] (stored_set (file initial_state)) st0
        = (inr (E1, P1), st1))
    /\ exists r, r ∈ E1 /\ a_id r = u "abc123 ".
Proof.
  apply (unstorable_identifier_reported_again ascii_runtime source_config
           padded_id_world initial_state global_compliance_news
           [padded_id_entry] padded_id_entry (u "abc123 ")).
  - left.
  - reflexivity.
  - left.
  - repeat split; vm_compute; reflexivity.
  - intros [H _]. vm_compute in H. discriminate.
Defined.

Lemma article_matches_combined_witness :
  article_matches ascii_runtime source_config
    (u "New GDPR rules" ++ [10%N] ++ u "in force from May")
  = article_matches ascii_runtime source_config (u "New GDPR rules")
    || article_matches ascii_runtime source_config (u "in force from May").
Proof.
  apply (article_matches_combined ascii_runtime source_config).
  - exact (fun a b => map_app lower_cp a b).
  - reflexivity.
  - apply (bool_decide_unpack _). vm_compute. exact I.
Defined.
